(** * react-three-fiber: frame subscribers, hooks, readiness latch, unmount
      and the pointer-event layer

    A shallow embedding of the parts of the repository that its behavioural
    description talks about:

    - [Scheduler]: [state.subscribe] of the Canvas component and
      [advanceFrames] of the test renderer;
    - [Hooks]: the guarded [useContext] of hooks.ts and the hooks built on it;
    - [Resize]: the readiness latch of [ResizeContainer];
    - [TestRenderer]: [unmount] and its [dispose] helper;
    - [Events]: [handleIntersects], [handlePointer], [handlePointerMove],
      [handlePointerCancel] and the DOM bindings of the Canvas component.

    JavaScript numbers that are only compared or tested against zero are
    modelled as [Z]; object identity is modelled by natural-number
    references. *)

From stdpp Require Import gmap strings list sorting.


(* ===================================================================== *)
(** ** Frame subscribers *)
(* ===================================================================== *)

Module Scheduler.

(** A callback (or React ref) is known by its reference identity. *)
Definition Callback := nat.

(** The function returned by [subscribe]:
    [() => (subscribers = subscribers.filter(s => s !== fn))].
    It acts on the list as it is when the function is called. *)
Definition unsubscribe (fn : Callback) (subscribers : list Callback)
  : list Callback :=
  filter (λ s, s ≠ fn) subscribers.

(** [subscribe: (fn, main) => { subscribers.push(fn); return () => ... }].
    The second argument is received and not used. *)
Definition subscribe (fn : Callback) (main : Z) (subscribers : list Callback)
  : list Callback * (list Callback → list Callback) :=
  (subscribers ++ [fn], unsubscribe fn).


(** The [delta] argument of [advanceFrames]: a number or an array. *)
Inductive Delta :=
| DNum (d : Z)
| DArr (ds : list Z).

(** [delta[i] || delta[-1]]: index [-1] of an array is [undefined], so a
    missing or zero entry gives [undefined] ([None]). *)
Definition delta_at (delta : Delta) (i : nat) : option Z :=
  match delta with
  | DNum d => Some d
  | DArr ds =>
      match ds !! i with
      | Some d => if bool_decide (d = 0%Z) then None else Some d
      | None => None
      end
  end.

(** One invocation [subscriber.ref.current(state, delta_i)]. *)
Record Call := { call_cb : Callback; call_frame : nat; call_delta : option Z }.

(** [advanceFrames(frames, delta)]: the outer loop runs over the
    subscribers, the inner loop over the frames. [ref] reads the callback
    reference out of a stored entry. *)
Definition advanceFrames {E : Type} (ref : E → Callback)
    (frames : nat) (delta : Delta) (storeSubscribers : list E) : list Call :=
  flat_map
    (λ subscriber,
       (λ i, {| call_cb := ref subscriber; call_frame := i;
                call_delta := delta_at delta i |}) <$> seq 0 frames)
    storeSubscribers.





End Scheduler.

(* ===================================================================== *)
(** ** JavaScript values and objects *)
(* ===================================================================== *)

Module Js.

(** Values, as far as the modelled code inspects them. Functions and
    objects are known by reference. *)
Inductive Value :=
| VUndefined
| VNull
| VBool (b : bool)
| VNum (z : Z)
| VStr (s : string)
| VFun (f : nat)
| VRef (r : nat).

(** ToBoolean. *)
Definition truthy (v : Value) : bool :=
  match v with
  | VUndefined | VNull => false
  | VBool b => b
  | VNum z => negb (z =? 0)%Z
  | VStr s => negb (String.eqb s "")
  | VFun _ | VRef _ => true
  end.

(** [o[k]]: a missing property reads as [undefined]. *)
Definition get (o : gmap string Value) (k : string) : Value :=
  default VUndefined (o !! k).

(** [k in o]. *)
Definition has (k : string) (o : gmap string Value) : bool :=
  bool_decide (is_Some (o !! k)).

(** A computation that returns or throws. *)
Inductive Result (A : Type) :=
| Ok (a : A)
| Throw (msg : string).
Arguments Ok {A} a.
Arguments Throw {A} msg.

Definition bind {A B} (r : Result A) (k : A → Result B) : Result B :=
  match r with
  | Ok a => k a
  | Throw msg => Throw msg
  end.

End Js.

(* ===================================================================== *)
(** ** Hooks (hooks.ts) *)
(* ===================================================================== *)

Module Hooks.
Import Js.

Definition hooks_error : string :=
  "⚡️ react-three-fiber hooks can only be used within the Canvas component! https://github.com/pmndrs/react-three-fiber/blob/master/markdown/api.md#hooks".

(** React's own [useContext]: the value of the nearest enclosing Provider,
    or the default value of the context when there is none. *)
Definition useContextImpl (defaultValue : gmap string Value)
    (provider : option (gmap string Value)) : gmap string Value :=
  default defaultValue provider.

(** The guarded [useContext] of hooks.ts. *)
Definition useContext (defaultValue : gmap string Value)
    (provider : option (gmap string Value)) : Result (gmap string Value) :=
  let result := useContextImpl defaultValue provider in
  if negb (has "subscribe" result) then Throw hooks_error else Ok result.

(** What [useFrame] hands to its subscribe effect:
    [subscribe(ref, renderPriority)]. *)
Record FrameEffect := {
  fe_subscribe : Value;
  fe_ref : nat;
  fe_priority : Z;
}.

(** [useFrame(callback, renderPriority = 0)]. The hook returns [null]; the
    model returns the effect it schedules. *)
Definition useFrame (defaultValue : gmap string Value)
    (provider : option (gmap string Value))
    (callback : nat) (renderPriority : option Z) : Result FrameEffect :=
  bind (useContext defaultValue provider) (λ result,
    Ok {| fe_subscribe := get result "subscribe";
          fe_ref := callback;
          fe_priority := default 0%Z renderPriority |}).

(** [useThree()]. *)
Definition useThree (defaultValue : gmap string Value)
    (provider : option (gmap string Value)) : Result (gmap string Value) :=
  useContext defaultValue provider.

(** [useUpdate(callback, dependents, optionalRef)]: returns the ref it
    works on. *)
Definition useUpdate (defaultValue : gmap string Value)
    (provider : option (gmap string Value))
    (callback : nat) (optionalRef : option nat) (localRef : nat) : Result nat :=
  bind (useContext defaultValue provider) (λ _,
    Ok (default localRef optionalRef)).

End Hooks.

(* ===================================================================== *)
(** ** The readiness latch of ResizeContainer *)
(* ===================================================================== *)

Module Resize.

(** The part of [RectReadOnly] the component reads. *)
Record RectReadOnly := { width : Z; height : Z }.

(** [!!n] for a number. *)
Definition to_bool (n : Z) : bool := negb (n =? 0)%Z.

(** Hook state of one mounted [ResizeContainer]: the bounds held by
    [useMeasure], the [readyFlag] ref, and the value cached by
    [useMemo(..., [size])] ([None] before the first render). *)
Record Instance := {
  size : RectReadOnly;
  readyFlag : bool;
  ready_memo : option bool;
}.

Definition initial : Instance :=
  {| size := {| width := 0; height := 0 |}; readyFlag := false; ready_memo := None |}.

(** What a render returns: the bare server-side [div], or the client [div]
    with [preRender] and, when [ready], the [Content] element. *)
Inductive Markup :=
| ServerDiv
| ClientDiv (content : bool).

(** [readyFlag.current = readyFlag.current || (!!size.width && !!size.height)],
    run by [useMemo] when [size] is a new object or on the first render. *)
Definition compute_ready (inst : Instance) : bool :=
  readyFlag inst || (to_bool (width (size inst)) && to_bool (height (size inst))).

(** One render of the component. [size_changed] says whether [size] is a
    new object since the previous render. *)
Definition render (hasWindow : bool) (size_changed : bool) (inst : Instance)
    : Instance * Markup :=
  let recompute :=
    match ready_memo inst with
    | None => true
    | Some _ => size_changed
    end in
  let ready :=
    if recompute then compute_ready inst
    else default false (ready_memo inst) in
  let inst' :=
    {| size := size inst;
       readyFlag := if recompute then ready else readyFlag inst;
       ready_memo := Some ready |} in
  (inst', if negb hasWindow then ServerDiv else ClientDiv ready).

(** What makes the component render again. *)
Inductive Update :=
| Measure (s : RectReadOnly)   (* the resize observer reports new bounds *)
| Rerender.                    (* new props or [setEvents]: same [size] *)

Definition step (hasWindow : bool) (u : Update) (inst : Instance)
    : Instance * Markup :=
  match u with
  | Measure s =>
      render hasWindow true
        {| size := s; readyFlag := readyFlag inst; ready_memo := ready_memo inst |}
  | Rerender => render hasWindow false inst
  end.

(** The markup of every render after the first one. *)
Fixpoint run (hasWindow : bool) (us : list Update) (inst : Instance)
    : list Markup :=
  match us with
  | [] => []
  | u :: us' =>
      let '(inst', m) := step hasWindow u inst in
      m :: run hasWindow us' inst'
  end.

(** The hook state after the renders caused by [us]. *)
Definition run_inst (hasWindow : bool) (us : list Update) (inst : Instance)
    : Instance :=
  foldl (λ i u, (step hasWindow u i).1) inst us.

(** The first render followed by the renders caused by [us]. *)
Definition renders (hasWindow : bool) (us : list Update) : list Markup :=
  let '(inst, m) := render hasWindow true initial in
  m :: run hasWindow us inst.

Definition has_content (m : Markup) : bool :=
  match m with
  | ServerDiv => false
  | ClientDiv c => c
  end.

(** React mounts [Content] when it appears where there was none in the
    previous render. [prev] tells whether it was there. *)
Fixpoint mounts (prev : bool) (ms : list Markup) : nat :=
  match ms with
  | [] => 0
  | m :: ms' =>
      (if negb prev && has_content m then 1 else 0) + mounts (has_content m) ms'
  end.

(** The value cached by [useMemo] is the value of the flag. *)
Definition memo_ok (inst : Instance) : Prop :=
  ready_memo inst = Some (readyFlag inst).

Definition zero_size (u : Update) : Prop :=
  match u with
  | Measure s => width s = 0%Z ∨ height s = 0%Z
  | Rerender => True
  end.

End Resize.

(* ===================================================================== *)
(** ** unmount and dispose of the test renderer *)
(* ===================================================================== *)

Module TestRenderer.
Import Js.

(** An entry of [mockRoots]: the fiber handle and the store, the latter
    given by the reference of the state object [store.getState()] returns. *)
Record Root := { fiber : nat; store : nat }.

Record World := {
  heap : gmap nat (gmap string Value);  (* the objects, by reference *)
  mockRoots : gmap nat Root;            (* Map<HTMLCanvasElement, Root> *)
  disposed : list nat;                  (* objects whose dispose() ran *)
}.

Definition set_heap (h : gmap nat (gmap string Value)) (w : World) : World :=
  {| heap := h; mockRoots := mockRoots w; disposed := disposed w |}.

Definition set_mockRoots (m : gmap nat Root) (w : World) : World :=
  {| heap := heap w; mockRoots := m; disposed := disposed w |}.

Definition log_dispose (r : nat) (w : World) : World :=
  {| heap := heap w; mockRoots := mockRoots w; disposed := disposed w ++ [r] |}.

(** The properties of the object behind a reference. *)
Definition obj (w : World) (r : nat) : gmap string Value :=
  default ∅ (heap w !! r).

(** [v !== 'Scene']. *)
Definition not_scene (v : Value) : bool :=
  match v with
  | VStr s => negb (String.eqb s "Scene")
  | _ => true
  end.

(** The guard of the helper: [obj.dispose && obj.type !== 'Scene']. *)
Definition disposable (o : gmap string Value) : bool :=
  truthy (get o "dispose") && not_scene (get o "type").

(** [obj.dispose()]: only a function can be called. *)
Definition call_dispose (r : nat) (w : World) : Result World :=
  match get (obj w r) "dispose" with
  | VFun _ => Ok (log_dispose r w)
  | _ => Throw "TypeError: obj.dispose is not a function"
  end.

(** The helper [dispose] of [unmount]:
    [if (obj.dispose && obj.type !== 'Scene') obj.dispose()], then every
    property of the object is deleted. *)
Definition dispose (o : Value) (w : World) : Result World :=
  match o with
  | VRef r =>
      bind (if disposable (obj w r) then call_dispose r w else Ok w)
        (λ w1, Ok (set_heap (<[r := ∅]> (heap w1)) w1))
  | VUndefined | VNull =>
      Throw "TypeError: cannot read properties of undefined"
  | _ => Ok w
  end.

(** [unmount(id)]. React unmounts the tree and then runs the callback given
    to [updateContainer]; the callback is what is modelled here. *)
Definition unmount (id : nat) (w : World) : Result World :=
  match mockRoots w !! id with
  | None => Ok w
  | Some root =>
      let state := store root in
      bind (dispose (get (obj w state) "gl") w) (λ w1,
      bind (dispose (get (obj w1 state) "raycaster") w1) (λ w2,
      bind (dispose (get (obj w2 state) "camera") w2) (λ w3,
      bind (dispose (VRef state) w3) (λ w4,
      Ok (set_mockRoots (delete id (mockRoots w4)) w4)))))
  end.




End TestRenderer.

(* ===================================================================== *)
(** ** The pointer-event layer of the Canvas component *)
(* ===================================================================== *)

Module Events.

(** THREE.Intersection: the object hit, by reference, and its distance
    from the camera. *)
Record Hit := { object : nat; distance : Z }.

(** The DOM event, with the fields the layer reads. *)
Record Event := { type : string; clientX : Z; clientY : Z }.

(** What [handleIntersects] builds for a hit and passes on: the fields of
    the event, the fields of the hit, and the cell [stopped] that
    [stopPropagation] sets. [d_type] is the [type] field, which the
    synthetic pointerover and pointerout events replace. The [ray] and
    [transform] fields play no part in dispatch and are left out. *)
Record Data := {
  d_event : Event;
  d_type : string;
  d_hit : Hit;
  d_stopped : nat;
}.

(** A registered handler: given the data, it tells whether it called
    [stopPropagation()]. Whatever else a handler does is outside the
    layer. *)
Definition Handler := Data → bool.

(** A scene object: its [uuid] and its table of handlers, by name. *)
Record Object3D := {
  uuid : string;
  __handlers : option (string → option Handler);
}.

(** One handler invocation. *)
Record Call := { c_name : string; c_data : Data; c_stop : bool }.

(** [state.current], [hovered.current] and the raycaster. [cells] holds the
    [stopped] cells, a cell being known by its index; [hovered] keeps the
    property order of the JavaScript object; [ray] is the event the ray
    was last set from; [raycasts] counts [intersectObjects] calls and
    [trace] lists the handler invocations. *)
Record State := {
  ready : bool;
  captured : option (list Hit);
  hovered : list (string * Data);
  cells : list bool;
  ray : option Event;
  raycasts : nat;
  trace : list Call;
}.

Definition set_captured (c : option (list Hit)) (st : State) : State :=
  {| ready := ready st; captured := c; hovered := hovered st;
     cells := cells st; ray := ray st; raycasts := raycasts st;
     trace := trace st |}.

Definition set_hovered (h : list (string * Data)) (st : State) : State :=
  {| ready := ready st; captured := captured st; hovered := h;
     cells := cells st; ray := ray st; raycasts := raycasts st;
     trace := trace st |}.

Definition set_cells (c : list bool) (st : State) : State :=
  {| ready := ready st; captured := captured st; hovered := hovered st;
     cells := c; ray := ray st; raycasts := raycasts st;
     trace := trace st |}.

Definition set_ray (r : option Event) (st : State) : State :=
  {| ready := ready st; captured := captured st; hovered := hovered st;
     cells := cells st; ray := r; raycasts := raycasts st;
     trace := trace st |}.

Definition set_raycasts (n : nat) (st : State) : State :=
  {| ready := ready st; captured := captured st; hovered := hovered st;
     cells := cells st; ray := ray st; raycasts := n;
     trace := trace st |}.

Definition set_trace (t : list Call) (st : State) : State :=
  {| ready := ready st; captured := captured st; hovered := hovered st;
     cells := cells st; ray := ray st; raycasts := raycasts st;
     trace := t |}.

(** [hovered.current[k]]. *)
Fixpoint hov_get (k : string) (m : list (string * Data)) : option Data :=
  match m with
  | [] => None
  | (k', d) :: m' => if String.eqb k' k then Some d else hov_get k m'
  end.

(** [hovered.current[k] = d]: an existing key keeps its place, a new key
    goes last. *)
Fixpoint hov_set (k : string) (d : Data) (m : list (string * Data))
    : list (string * Data) :=
  match m with
  | [] => [(k, d)]
  | (k', d') :: m' =>
      if String.eqb k' k then (k, d) :: m' else (k', d') :: hov_set k d m'
  end.

(** [delete hovered.current[k]]. *)
Definition hov_delete (k : string) (m : list (string * Data))
    : list (string * Data) :=
  filter (λ e, e.1 ≠ k) m.

(** [{ ...data, type: t }]. *)
Definition with_type (t : string) (d : Data) : Data :=
  {| d_event := d_event d; d_type := t; d_hit := d_hit d;
     d_stopped := d_stopped d |}.

(** [stopped.current]. *)
Definition cell (st : State) (r : nat) : bool :=
  default false (cells st !! r).

(** [data.stopPropagation()]: [stopped.current = true]. *)
Definition stopPropagation (data : Data) (st : State) : State :=
  set_cells (<[d_stopped data := true]> (cells st)) st.

(** Calling a handler with [data]. *)
Definition invoke (name : string) (h : Handler) (data : Data) (st : State)
    : State :=
  let stop := h data in
  let st1 :=
    set_trace (trace st ++ [{| c_name := name; c_data := data; c_stop := stop |}])
      st in
  if stop then stopPropagation data st1 else st1.

Section Layer.

(** The scene: what a reference stands for when the event arrives. *)
Variable scene : nat → Object3D.

(** [raycaster.intersectObjects(scene.__interaction, true)] for the ray
    last set by [prepareRay]. *)
Variable intersectObjects : option Event → list Hit.

(** [prepareRay(event)]: sets the ray from the event's coordinates. *)
Definition prepareRay (event : Event) (st : State) : State :=
  set_ray (Some event) st.

(** [intersect(event, prepare)]. *)
Definition intersect (event : Event) (prepare : bool) (st : State)
    : State * list Hit :=
  let st1 := if prepare then prepareRay event st else st in
  (set_raycasts (S (raycasts st1)) st1,
   filter (λ h, is_Some (__handlers (scene (object h))))
     (intersectObjects (ray st1))).

(** The loop of [handleIntersects]: a new cell for every hit, the
    callback, and [break] when the cell is set. *)
Fixpoint forward (event : Event) (fn : Data → State → State)
    (hits : list Hit) (st : State) : State :=
  match hits with
  | [] => st
  | hit :: rest =>
      let stopped := length (cells st) in
      let st1 := set_cells (cells st ++ [false]) st in
      let st2 :=
        fn {| d_event := event; d_type := type event; d_hit := hit;
              d_stopped := stopped |} st1 in
      if cell st2 stopped then st2 else forward event fn rest st2
  end.

(** The hits [handleIntersects] works on: the captured ones unless the
    event is a click or a wheel event, else a new intersection. *)
Definition pick_hits (event : Event) (st : State) : State * list Hit :=
  match captured st with
  | Some c =>
      if negb (String.eqb (type event) "click")
         && negb (String.eqb (type event) "wheel")
      then (st, c)
      else intersect event false st
  | None => intersect event false st
  end.

(** [handleIntersects(event, fn)]. *)
Definition handleIntersects (event : Event) (fn : Data → State → State)
    (st : State) : State * list Hit :=
  let '(st1, hits) := pick_hits event (prepareRay event st) in
  (forward event fn hits st1, hits).

(** [object.__handlers[name]]. Hits only hold objects that have a table
    of handlers; an object without one has no handler here. *)
Definition handler_of (o : nat) (name : string) : option Handler :=
  match __handlers (scene o) with
  | Some handlers => handlers name
  | None => None
  end.

(** The callback of [handlePointer(name)]. *)
Definition pointer_fn (name : string) (data : Data) (st : State) : State :=
  match handler_of (object (d_hit data)) name with
  | Some h => invoke name h data st
  | None => st
  end.

(** [handlePointer(name)(event)]. *)
Definition handlePointer (name : string) (event : Event) (st : State)
    : State :=
  if negb (ready st) then st
  else (handleIntersects event (pointer_fn name) st).1.

(** The body shared by the two unhover loops: call [pointerOut], if there
    is one, with [{ ...data, type: 'pointerout' }], then delete the entry
    of the object's uuid. *)
Definition unhover (data : Data) (st : State) : State :=
  let st1 :=
    match handler_of (object (d_hit data)) "pointerOut" with
    | Some h => invoke "pointerOut" h (with_type "pointerout" data) st
    | None => st
    end in
  set_hovered
    (hov_delete (uuid (scene (object (d_hit data)))) (hovered st1)) st1.

(** The callback of [handlePointerMove]. *)
Definition move_fn (data : Data) (st : State) : State :=
  let o := object (d_hit data) in
  let st1 :=
    match handler_of o "pointerMove" with
    | Some h => invoke "pointerMove" h data st
    | None => st
    end in
  match handler_of o "pointerOver" with
  | Some over =>
      match hov_get (uuid (scene o)) (hovered st1) with
      | None =>
          let st2 :=
            set_hovered (hov_set (uuid (scene o)) data (hovered st1)) st1 in
          invoke "pointerOver" over (with_type "pointerover" data) st2
      | Some prev =>
          if cell st1 (d_stopped prev) then
            let st2 := stopPropagation data st1 in
            foldl
              (λ s d,
                 if negb (String.eqb (uuid (scene (object (d_hit d))))
                            (uuid (scene o)))
                 then unhover d s else s)
              st2 (snd <$> hovered st2)
          else st1
      end
  | None => st1
  end.

(** [handlePointerCancel(event, hits?)]. *)
Definition handlePointerCancel (event : Event) (hits : option (list Hit))
    (st : State) : State :=
  let '(st1, hits1) :=
    match hits with
    | Some hs => (st, hs)
    | None => handleIntersects event (λ _ s, s) st
    end in
  foldl
    (λ s data,
       if Nat.eqb (length hits1) 0
          || negb (existsb (λ i, Nat.eqb (object i) (object (d_hit data))) hits1)
       then unhover data s else s)
    st1 (snd <$> hovered st1).

(** [handlePointerMove(event)]. *)
Definition handlePointerMove (event : Event) (st : State) : State :=
  if negb (ready st) then st
  else
    let '(st1, hits) := handleIntersects event move_fn st in
    handlePointerCancel event (Some hits) st1.

(** The event props of the [div]. *)
Inductive Binding :=
| onClick
| onWheel
| onPointerDown
| onPointerUp
| onPointerLeave
| onPointerMove
| onGotPointerCapture
| onLostPointerCapture.

(** What the [div] does with an event that arrives at one of its props. *)
Definition deliver (b : Binding) (event : Event) (st : State) : State :=
  match b with
  | onClick => handlePointer "click" event st
  | onWheel => handlePointer "wheel" event st
  | onPointerDown => handlePointer "pointerDown" event st
  | onPointerUp => handlePointer "pointerUp" event st
  | onPointerLeave => handlePointerCancel event (Some []) st
  | onPointerMove => handlePointerMove event st
  | onGotPointerCapture =>
      let '(st1, hits) := intersect event false st in
      set_captured (Some hits) st1
  | onLostPointerCapture =>
      handlePointerCancel event None (set_captured None st)
  end.

(** The key under which [handlePointerMove] books an entry:
    [data.object.uuid]. *)
Definition hover_key (d : Data) : string :=
  uuid (scene (object (d_hit d))).

(** The [pointerOut] invocations of an unhover loop over [ds]: one for
    every entry whose object has a [pointerOut] handler, in order. *)
Definition pointerOut_calls (ds : list Data) : list Call :=
  flat_map
    (λ d,
       match handler_of (object (d_hit d)) "pointerOut" with
       | Some h =>
           [{| c_name := "pointerOut"; c_data := with_type "pointerout" d;
               c_stop := h (with_type "pointerout" d) |}]
       | None => []
       end)
    ds.

(** Every hover entry sits under the uuid of its object, and no key occurs
    twice. *)
Definition hover_ok (st : State) : Prop :=
  Forall (λ e, e.1 = hover_key e.2) (hovered st) ∧ NoDup (hovered st).*1.

(** The hits an event is dispatched over. *)
Definition dispatched_hits (event : Event) (st : State) : list Hit :=
  (pick_hits event (prepareRay event st)).2.

(** The bindings guarded by [ready]. *)
Definition dispatching (b : Binding) : bool :=
  match b with
  | onClick | onWheel | onPointerDown | onPointerUp | onPointerMove => true
  | _ => false
  end.

End Layer.

(** *** Notions used to state the properties *)

(** The part of the state that handlers and hover bookkeeping leave alone. *)
Definition frame_of (st : State) : bool * option (list Hit) * nat :=
  (ready st, captured st, raycasts st).

(** The cells, in call order, of the calls that hand an event to a hit:
    all calls but the [pointerOut] calls of the unhover loops. *)
Definition dispatch_cells (calls : list Call) : list nat :=
  (λ c, d_stopped (c_data c)) <$> filter (λ c, c_name c ≠ "pointerOut") calls.


(** The cells held by hover entries are older than cell [n]. *)
Definition hover_cells_below (n : nat) (st : State) : Prop :=
  Forall (λ e, (d_stopped e.2 < n)%nat) (hovered st).

(** What the dispatch loop relies on in its callback: called with the data
    of a hit, the callback keeps the number of cells, makes calls on older
    cells or on the cell of the hit, hands the event only to that hit, and
    leaves the cell set when such a call stopped propagation. *)
Definition step_ok (fn : Data → State → State) : Prop :=
  ∀ d s,
    (d_stopped d < length (cells s))%nat →
    hover_cells_below (length (cells s)) s →
    ∃ seg,
      trace (fn d s) = trace s ++ seg ∧
      length (cells (fn d s)) = length (cells s) ∧
      hover_cells_below (length (cells s)) (fn d s) ∧
      Forall
        (λ c, (d_stopped (c_data c) < length (cells s))%nat ∧
              (c_name c ≠ "pointerOut" →
               d_event (c_data c) = d_event d ∧
               d_hit (c_data c) = d_hit d ∧
               d_stopped (c_data c) = d_stopped d ∧
               (c_stop c = true → cell (fn d s) (d_stopped d) = true)))
        seg.

(** One stretch of a callback's work on the data [d] of a hit, from state
    [s] to state [s'], making the calls [seg]: with [n] cells before, and
    the hover entries on older cells, there are [n] cells after, set cells
    stay set, the hover entries are still on older cells, and the calls
    are as [step_ok] wants them. *)
Definition extends (n : nat) (d : Data) (s s' : State) (seg : list Call)
    : Prop :=
  length (cells s) = n → hover_cells_below n s →
  trace s' = trace s ++ seg ∧
  length (cells s') = n ∧
  (∀ r, cell s r = true → cell s' r = true) ∧
  hover_cells_below n s' ∧
  Forall
    (λ c, (d_stopped (c_data c) < n)%nat ∧
          (c_name c ≠ "pointerOut" →
           d_event (c_data c) = d_event d ∧
           d_hit (c_data c) = d_hit d ∧
           d_stopped (c_data c) = d_stopped d ∧
           (c_stop c = true → cell s' (d_stopped d) = true)))
    seg.

(** *** A sample scene *)

(** A small scene to run the layer on: object 1, uuid A, lies in front of
    object 2, uuid B. Both have [pointerOver] and [pointerOut] handlers and
    A's [pointerOver] handler stops propagation. Other references stand
    for an object without handlers. A pointer at [clientX = 0] is off both
    objects and a pointer at [clientX = 9] is over B only. *)
Definition handlers_A (name : string) : option Handler :=
  if String.eqb name "pointerOver" then Some (λ _, true)
  else if String.eqb name "pointerOut" then Some (λ _, false)
  else None.

Definition handlers_B (name : string) : option Handler :=
  if String.eqb name "pointerOver" then Some (λ _, false)
  else if String.eqb name "pointerOut" then Some (λ _, false)
  else None.

Definition sample_scene (o : nat) : Object3D :=
  match o with
  | 1%nat => {| uuid := "A"; __handlers := Some handlers_A |}
  | 2%nat => {| uuid := "B"; __handlers := Some handlers_B |}
  | _ => {| uuid := ""; __handlers := None |}
  end.

Definition hit_A : Hit := {| object := 1; distance := 3 |}.
Definition hit_B : Hit := {| object := 2; distance := 5 |}.

Definition sample_raycaster (r : option Event) : list Hit :=
  match r with
  | Some ev =>
      if (clientX ev =? 0)%Z then []
      else if (clientX ev =? 9)%Z then [hit_B]
      else [hit_A; hit_B]
  | None => []
  end.

Definition move_over : Event :=
  {| type := "pointermove"; clientX := 5; clientY := 5 |}.

Definition move_away : Event :=
  {| type := "pointermove"; clientX := 0; clientY := 5 |}.

Definition move_behind : Event :=
  {| type := "pointermove"; clientX := 9; clientY := 5 |}.

Definition sample_state : State :=
  {| ready := true; captured := None; hovered := []; cells := [];
     ray := None; raycasts := 0; trace := [] |}.

(** The state after [move_over]: A is hovered. *)
Definition hovering_A : State :=
  handlePointerMove sample_scene sample_raycaster move_over sample_state.

End Events.

(* ===================================================================== *)
(** ** A session of pointer events *)
(* ===================================================================== *)

Module Session.
Import Events.

(** The events the [div] receives, one after the other, each at the prop
    it arrives at. *)
Definition replay (scene : nat → Object3D)
    (intersectObjects : option Event → list Hit)
    (events : list (Binding * Event)) (st : State) : State :=
  foldl (λ s e, deliver scene intersectObjects e.1 e.2 s) st events.

(** From [st] to [st'] only handlers were called and hover entries and
    cells changed: [ready], [captured], the ray and the number of
    raycasts are the same, and the calls made so far are still there. *)
Definition grows (st st' : State) : Prop :=
  ready st' = ready st ∧ captured st' = captured st ∧
  raycasts st' = raycasts st ∧ ray st' = ray st ∧
  ∃ new, trace st' = trace st ++ new.

(** A scene of two objects with [click] handlers that let the event
    pass: object 1, uuid A, in front of object 2, uuid B. *)
Definition handlers_click (name : string) : option Handler :=
  if String.eqb name "click" then Some (λ _, false) else None.

Definition click_scene (o : nat) : Object3D :=
  match o with
  | 1%nat => {| uuid := "A"; __handlers := Some handlers_click |}
  | 2%nat => {| uuid := "B"; __handlers := Some handlers_click |}
  | _ => {| uuid := ""; __handlers := None |}
  end.

(** The sample scene after the pointer came over B and then over A and
    B: both are hovered, and A has stopped propagation. *)
Definition hovering_B_and_A : State :=
  handlePointerMove sample_scene sample_raycaster move_over
    (handlePointerMove sample_scene sample_raycaster move_behind sample_state).

Definition click_over : Event :=
  {| type := "click"; clientX := 5; clientY := 5 |}.

Definition pointer_down : Event :=
  {| type := "pointerdown"; clientX := 5; clientY := 5 |}.

Definition got_capture : Event :=
  {| type := "gotpointercapture"; clientX := 5; clientY := 5 |}.

End Session.

(* ===================================================================== *)
(** ** buildGraph (hooks.ts) *)
(* ===================================================================== *)

Module Graph.

(** THREE.Material, as far as [buildGraph] reads it: which material it is
    and its [name]. An object carries one material or none; a mesh with an
    array of materials is outside the model. *)
Record Material := { mat_id : nat; mat_name : string }.

(** THREE.Object3D, as far as [buildGraph] and [traverse] read it: which
    object it is, its [name], its [material] if it has one, and its
    [children]. *)
#[warnings="-register-all"]
Inductive Object3D :=
| Obj (id : nat) (name : string) (material : option Material)
      (children : list Object3D).

Definition name (o : Object3D) : string :=
  match o with Obj _ n _ _ => n end.

Definition material (o : Object3D) : option Material :=
  match o with Obj _ _ m _ => m end.

Definition children (o : Object3D) : list Object3D :=
  match o with Obj _ _ _ cs => cs end.

(** The order in which [object.traverse(callback)] calls [callback]: the
    object itself, then each child's traversal in turn. *)
Fixpoint traverse (o : Object3D) : list Object3D :=
  match o with
  | Obj _ _ _ cs => o :: flat_map traverse cs
  end.

(** The property names a fresh object literal inherits from
    [Object.prototype]: reading one of them from [{}] gives a truthy
    value, and [__proto__] among them is an accessor, so that assigning to
    it creates no property. *)
Definition object_prototype_names : list string :=
  [ "constructor"; "__defineGetter__"; "__defineSetter__"; "hasOwnProperty";
    "__lookupGetter__"; "__lookupSetter__"; "isPrototypeOf";
    "propertyIsEnumerable"; "toString"; "valueOf"; "__proto__";
    "toLocaleString" ]%string.

Definition inherited (k : string) : bool :=
  bool_decide (k ∈ object_prototype_names).

(** [ObjectMap]. *)
Record ObjectMap := {
  nodes : gmap string Object3D;
  materials : gmap string Material;
}.

(** [if (obj.name) data.nodes[obj.name] = obj]: the empty name is falsy,
    and assigning to [__proto__] creates no property. *)
Definition visit_node (obj : Object3D) (ns : gmap string Object3D)
    : gmap string Object3D :=
  if String.eqb (name obj) "" then ns
  else if String.eqb (name obj) "__proto__" then ns
  else <[name obj := obj]> ns.

(** [!data.materials[k]]: nothing recorded under [k] and nothing
    inherited. Recorded materials are objects, hence truthy. *)
Definition material_free (k : string) (ms : gmap string Material) : bool :=
  negb (bool_decide (is_Some (ms !! k))) && negb (inherited k).

(** [if (obj.material && !data.materials[obj.material.name])
       data.materials[obj.material.name] = obj.material]. *)
Definition visit_material (obj : Object3D) (ms : gmap string Material)
    : gmap string Material :=
  match material obj with
  | Some m => if material_free (mat_name m) ms then <[mat_name m := m]> ms else ms
  | None => ms
  end.

(** The callback of the traversal. *)
Definition visit (data : ObjectMap) (obj : Object3D) : ObjectMap :=
  {| nodes := visit_node obj (nodes data);
     materials := visit_material obj (materials data) |}.

(** [buildGraph(object)]; [None] stands for a falsy [object]. *)
Definition buildGraph (object : option Object3D) : ObjectMap :=
  let data := {| nodes := ∅; materials := ∅ |} in
  match object with
  | Some o => foldl visit data (traverse o)
  | None => data
  end.

(** The materials met by a traversal, in order. *)
Definition materials_of (objs : list Object3D) : list Material :=
  omap material objs.

(** A small model: two meshes called "leaf" that share the material name
    "bark" under a nameless root. *)
Definition bark1 : Material := {| mat_id := 1; mat_name := "bark" |}.
Definition bark2 : Material := {| mat_id := 2; mat_name := "bark" |}.
Definition leaf1 : Object3D := Obj 1 "leaf" (Some bark1) [].
Definition leaf2 : Object3D := Obj 2 "leaf" (Some bark2) [].
Definition sample_root : Object3D := Obj 0 "" None [leaf1; leaf2].

End Graph.

(* ===================================================================== *)
(** ** setManual of the Canvas component *)
(* ===================================================================== *)

Module Canvas.

(** [Array.prototype.forEach] on an array that its callback changes: the
    length is read once, before the first call; index [k] is visited if
    the array still has it when its turn comes. [f x arr] is the array
    after the callback ran on element [x]. *)
Fixpoint forEach_from {A} (f : A → list A → list A) (n k : nat)
    (arr : list A) : list A :=
  match n with
  | O => arr
  | S n' =>
      let arr' :=
        match arr !! k with
        | Some x => f x arr
        | None => arr
        end in
      forEach_from f n' (S k) arr'
  end.

Definition forEach {A} (f : A → list A → list A) (arr : list A) : list A :=
  forEach_from f (length arr) 0 arr.

(** The fields of [state.current] that [setManual] touches:
    [manual] and [scene.children], the children by reference. *)
Record State := { manual : bool; children : list nat }.

Section SetManual.

(** [scene.remove(child)], as it acts on [scene.children]. *)
Variable remove : nat → list nat → list nat.

(** [setManual(takeOverRenderloop)]. *)
Definition setManual (takeOverRenderloop : bool) (st : State) : State :=
  let st1 := {| manual := takeOverRenderloop; children := children st |} in
  if takeOverRenderloop then
    {| manual := manual st1; children := forEach remove (children st1) |}
  else st1.

End SetManual.

(** The elements at positions 1, 3, 5, ... of a list. *)
Fixpoint odd_positions {A} (l : list A) : list A :=
  match l with
  | _ :: y :: l' => y :: odd_positions l'
  | _ => []
  end.

(** Taking out the first occurrence: [children.splice(children.indexOf(x), 1)]
    when [x] is there. *)
Fixpoint splice_out (x : nat) (l : list nat) : list nat :=
  match l with
  | [] => []
  | y :: l' => if decide (y = x) then l' else y :: splice_out x l'
  end.

End Canvas.

(* ===================================================================== *)
(** * Properties *)
(* ===================================================================== *)

(** ** Frame subscribers *)

Section SchedulerFacts.
Import Scheduler.



Lemma filter_none {A} (P : A → Prop) `{∀ x, Decision (P x)} (l : list A) :
  Forall (λ x, ¬ P x) l → filter P l = [].
Proof.
  induction 1 as [|x l Hx _ IH]; [done|]. by rewrite filter_cons_False.
Qed.

Lemma filter_all {A} (P : A → Prop) `{∀ x, Decision (P x)} (l : list A) :
  Forall P l → filter P l = l.
Proof.
  induction 1 as [|x l Hx _ IH]; [done|]. by rewrite filter_cons_True, IH.
Qed.






Lemma unsubscribe_fresh (L : list Callback) f : f ∉ L → unsubscribe f L = L.
Proof.
  unfold unsubscribe. induction L as [|x L IH]; [done|].
  intros [Hx HL]%not_elem_of_cons. rewrite filter_cons_True by done.
  by rewrite IH.
Qed.

(** C10. [subscribe] followed by the function it returns gives back the
    list it started from when the callback reference was not in it; the
    returned function removes every occurrence of that reference from
    whatever list it is run on, and keeps all other entries, in order. *)
Theorem subscribe_unsubscribe_roundtrip (L : list Callback) (f : Callback) (p : Z) :
  (f ∉ L → snd (subscribe f p L) (fst (subscribe f p L)) = L) ∧
  (∀ M : list Callback,
     (f ∉ snd (subscribe f p L) M) ∧
     sublist (snd (subscribe f p L) M) M ∧
     ∀ g, g ≠ f →
       filter (λ s, s = g) (snd (subscribe f p L) M) = filter (λ s, s = g) M).
Proof.
  simpl. split.
  - intros Hf. unfold unsubscribe. rewrite filter_app.
    fold (unsubscribe f L). rewrite unsubscribe_fresh by done.
    rewrite filter_cons_False by (intros Hne; by apply Hne).
    by rewrite filter_nil, app_nil_r.
  - intros M. unfold unsubscribe. split_and!.
    + rewrite list_elem_of_filter. intros [Hne _]. by apply Hne.
    + apply sublist_filter.
    + intros g Hg. rewrite list_filter_filter.
      apply list_filter_iff. intros x. split; [by intros [? _]|].
      intros ->. by split.
Qed.

Lemma subscribe_unsubscribe_roundtrip_witness :
  snd (subscribe 3%nat 0 [1%nat; 2%nat]) (fst (subscribe 3%nat 0 [1%nat; 2%nat]))
  = [1%nat; 2%nat].
Proof.
  apply (subscribe_unsubscribe_roundtrip [1%nat; 2%nat] 3%nat 0).
  intros H. apply list_elem_of_In in H. simpl in H.
  destruct H as [H|[H|[]]]; discriminate H.
Defined.




End SchedulerFacts.

(** ** The readiness latch *)

Section ResizeFacts.
Import Resize.

Lemma step_memo_ok hasWindow u inst :
  memo_ok inst → memo_ok (step hasWindow u inst).1.
Proof.
  unfold memo_ok. destruct u as [s|]; simpl; intros ->; reflexivity.
Qed.

Lemma step_flag_monotone hasWindow u inst :
  readyFlag inst = true → readyFlag (step hasWindow u inst).1 = true.
Proof.
  intros Hf. destruct u as [s|]; simpl; unfold compute_ready; simpl;
    rewrite Hf; by destruct (ready_memo inst).
Qed.

Lemma step_zero hasWindow u inst :
  memo_ok inst → readyFlag inst = false → zero_size u →
  readyFlag (step hasWindow u inst).1 = false ∧
  has_content (step hasWindow u inst).2 = false.
Proof.
  unfold memo_ok. intros Hm Hf Hz. destruct u as [s|]; simpl.
  - rewrite Hm. unfold compute_ready, to_bool. simpl. rewrite Hf. simpl.
    simpl in Hz.
    assert (negb (width s =? 0)%Z && negb (height s =? 0)%Z = false) as ->.
    { destruct Hz as [-> | ->]; simpl; [done|]. by rewrite andb_false_r. }
    by destruct hasWindow.
  - rewrite Hm, Hf. by destruct hasWindow.
Qed.

Lemma step_ready u inst :
  memo_ok inst → readyFlag inst = true →
  (step true u inst).2 = ClientDiv true.
Proof.
  unfold memo_ok. intros Hm Hf. destruct u as [s|]; simpl; rewrite Hm.
  - unfold compute_ready. simpl. by rewrite Hf.
  - by rewrite Hf.
Qed.

Lemma run_cons hasWindow u us inst :
  run hasWindow (u :: us) inst
  = (step hasWindow u inst).2 :: run hasWindow us (step hasWindow u inst).1.
Proof. cbn [run]. by destruct (step hasWindow u inst). Qed.

Lemma run_inst_cons hasWindow u us inst :
  run_inst hasWindow (u :: us) inst
  = run_inst hasWindow us (step hasWindow u inst).1.
Proof. reflexivity. Qed.

Lemma run_app hasWindow us1 us2 inst :
  run hasWindow (us1 ++ us2) inst
  = run hasWindow us1 inst ++ run hasWindow us2 (run_inst hasWindow us1 inst).
Proof.
  revert inst. induction us1 as [|u us1 IH]; intros inst; [done|].
  rewrite <- app_comm_cons, !run_cons, run_inst_cons, IH. done.
Qed.

Lemma run_zero us inst :
  memo_ok inst → readyFlag inst = false → Forall zero_size us →
  run true us inst = replicate (length us) (ClientDiv false) ∧
  readyFlag (run_inst true us inst) = false ∧
  memo_ok (run_inst true us inst).
Proof.
  intros Hm Hf Hz. revert inst Hm Hf.
  induction Hz as [|u us Hu _ IH]; intros inst Hm Hf; [done|].
  destruct (step_zero true u inst Hm Hf Hu) as [Hf' Hc].
  pose proof (step_memo_ok true u inst Hm) as Hm'.
  rewrite run_cons, run_inst_cons.
  destruct (IH _ Hm' Hf') as (-> & ? & ?). split_and!; [|done..].
  cbn [length replicate]. f_equal.
  destruct u; simpl in *; by rewrite Hc.
Qed.

Lemma run_ready us inst :
  memo_ok inst → readyFlag inst = true →
  run true us inst = replicate (length us) (ClientDiv true).
Proof.
  revert inst. induction us as [|u us IH]; intros inst Hm Hf; [done|].
  pose proof (step_ready u inst Hm Hf) as Hr.
  pose proof (step_memo_ok true u inst Hm) as Hm'.
  pose proof (step_flag_monotone true u inst Hf) as Hf'.
  rewrite run_cons, Hr, IH by done. done.
Qed.

Lemma run_server us inst :
  run false us inst = replicate (length us) ServerDiv.
Proof.
  revert inst. induction us as [|u us IH]; intros inst; [done|].
  rewrite run_cons, IH. by destruct u.
Qed.

Lemma mounts_none prev n m :
  has_content m = false → mounts prev (replicate n m) = 0%nat.
Proof.
  intros Hc. revert prev. induction n as [|n IH]; intros prev; [done|].
  simpl. rewrite Hc, IH. by rewrite andb_false_r.
Qed.

Lemma mounts_kept n : mounts true (replicate n (ClientDiv true)) = 0%nat.
Proof. induction n as [|n IH]; [done|]. simpl. by rewrite IH. Qed.

Lemma mounts_app prev ms1 ms2 :
  mounts prev (ms1 ++ ms2)
  = (mounts prev ms1
     + mounts (foldl (λ _ m, has_content m) prev ms1) ms2)%nat.
Proof.
  revert prev. induction ms1 as [|m ms1 IH]; intros prev; [done|].
  simpl. rewrite IH. lia.
Qed.

Lemma foldl_content_replicate prev n m :
  foldl (λ _ m, has_content m) prev (replicate (S n) m) = has_content m.
Proof.
  revert prev. induction n as [|n IH]; intros prev; [done|].
  change (replicate (S (S n)) m) with (m :: replicate (S n) m).
  cbn [foldl]. apply IH.
Qed.

(** C4. With a window: as long as every measurement has width 0 or
    height 0, every render shows the container without [Content]; from the
    first measurement with non-zero width and height on, every render shows
    [Content], whatever is measured later, so [Content] is mounted exactly
    once and the flag, once set, stays set. Without a window every render is
    the bare placeholder [div]. *)
Theorem readiness_latch (pre post : list Update) (s : RectReadOnly) :
  Forall zero_size pre → width s ≠ 0%Z → height s ≠ 0%Z →
  renders true pre = replicate (S (length pre)) (ClientDiv false) ∧
  mounts false (renders true pre) = 0%nat ∧
  renders true (pre ++ Measure s :: post)
  = replicate (S (length pre)) (ClientDiv false)
    ++ replicate (S (length post)) (ClientDiv true) ∧
  mounts false (renders true (pre ++ Measure s :: post)) = 1%nat ∧
  (∀ hasWindow u inst,
     readyFlag inst = true → readyFlag (step hasWindow u inst).1 = true) ∧
  (∀ us, renders false us = replicate (S (length us)) ServerDiv ∧
         mounts false (renders false us) = 0%nat).
Proof.
  intros Hz Hw Hh.
  set (inst0 := (render true true initial).1).
  assert (Hm0 : memo_ok inst0) by reflexivity.
  assert (Hf0 : readyFlag inst0 = false) by reflexivity.
  destruct (run_zero pre inst0 Hm0 Hf0 Hz) as (Hrun & Hf1 & Hm1).
  assert (Hpre : renders true pre = replicate (S (length pre)) (ClientDiv false)).
  { change (renders true pre) with (ClientDiv false :: run true pre inst0).
    by rewrite Hrun. }
  assert (Hall : renders true (pre ++ Measure s :: post)
                 = replicate (S (length pre)) (ClientDiv false)
                   ++ replicate (S (length post)) (ClientDiv true)).
  { change (renders true (pre ++ Measure s :: post))
      with (ClientDiv false :: run true (pre ++ Measure s :: post) inst0).
    rewrite run_app, Hrun. cbn [replicate app]. f_equal. f_equal.
    set (inst1 := run_inst true pre inst0) in *.
    assert (Hs : step true (Measure s) inst1
                 = ({| size := s; readyFlag := true; ready_memo := Some true |},
                    ClientDiv true)).
    { apply Z.eqb_neq in Hw, Hh.
      unfold step, render, compute_ready, to_bool. cbn [size readyFlag ready_memo].
      unfold memo_ok in Hm1. rewrite Hm1, Hf1, Hw, Hh. reflexivity. }
    rewrite run_cons, Hs. cbn [fst snd length replicate]. f_equal.
    by rewrite run_ready. }
  split_and!.
  - done.
  - rewrite Hpre. by apply mounts_none.
  - done.
  - rewrite Hall, mounts_app, mounts_none, foldl_content_replicate by done.
    cbn [replicate mounts has_content negb andb]. by rewrite mounts_kept.
  - apply step_flag_monotone.
  - intros us. assert (Hs : renders false us = replicate (S (length us)) ServerDiv).
    { change (renders false us)
        with (ServerDiv :: run false us (render false true initial).1).
      by rewrite run_server. }
    split; [done|]. rewrite Hs. by apply mounts_none.
Qed.

Lemma readiness_latch_witness :
  renders true ([Measure {| width := 0; height := 600 |}; Rerender]
                ++ Measure {| width := 800; height := 600 |}
                   :: [Measure {| width := 0; height := 0 |}; Rerender])
  = replicate 3 (ClientDiv false) ++ replicate 3 (ClientDiv true).
Proof.
  refine (proj1 (proj2 (proj2
    (readiness_latch [Measure {| width := 0; height := 600 |}; Rerender]
       [Measure {| width := 0; height := 0 |}; Rerender]
       {| width := 800; height := 600 |} _ _ _)))).
  - apply Forall_cons. split; [by left|]. by apply Forall_cons.
  - simpl. lia.
  - simpl. lia.
Defined.

End ResizeFacts.

(** ** Hooks *)

Section HooksFacts.
Import Js Hooks.

Lemma useContext_throws dflt provider :
  useContextImpl dflt provider !! "subscribe" = None →
  useContext dflt provider = Throw hooks_error.
Proof.
  intros Hnone. unfold useContext, has. rewrite Hnone.
  rewrite bool_decide_eq_false_2; [done|]. by intros [? ?].
Qed.

Lemma useContext_returns dflt provider :
  is_Some (useContextImpl dflt provider !! "subscribe") →
  useContext dflt provider = Ok (useContextImpl dflt provider).
Proof.
  intros Hsome. unfold useContext, has.
  by rewrite bool_decide_eq_true_2.
Qed.

(** C8. When the context value a hook sees has no [subscribe] property,
    [useFrame], [useThree] and [useUpdate] throw the fixed error message
    at the call; when it has one, each of them returns. *)
Theorem hooks_throw_outside_canvas
    (dflt : gmap string Value) (provider : option (gmap string Value))
    (callback : nat) (renderPriority : option Z)
    (optionalRef : option nat) (localRef : nat) :
  (useContextImpl dflt provider !! "subscribe" = None →
     useFrame dflt provider callback renderPriority = Throw hooks_error ∧
     useThree dflt provider = Throw hooks_error ∧
     useUpdate dflt provider callback optionalRef localRef = Throw hooks_error) ∧
  (is_Some (useContextImpl dflt provider !! "subscribe") →
     (∃ eff, useFrame dflt provider callback renderPriority = Ok eff) ∧
     useThree dflt provider = Ok (useContextImpl dflt provider) ∧
     (∃ ref, useUpdate dflt provider callback optionalRef localRef = Ok ref)).
Proof.
  split.
  - intros Hnone. unfold useFrame, useThree, useUpdate.
    by rewrite (useContext_throws _ _ Hnone).
  - intros Hsome. unfold useFrame, useThree, useUpdate.
    rewrite (useContext_returns _ _ Hsome). simpl. eauto.
Qed.

Lemma hooks_throw_outside_canvas_witness :
  (useFrame ∅ None 1 (Some 2%Z) = Throw hooks_error ∧
   useThree ∅ None = Throw hooks_error ∧
   useUpdate ∅ None 1 None 3 = Throw hooks_error) ∧
  ((∃ eff, useFrame ∅ (Some {[ "subscribe" := VFun 0 ]}) 1 (Some 2%Z) = Ok eff) ∧
   useThree ∅ (Some {[ "subscribe" := VFun 0 ]}) = Ok {[ "subscribe" := VFun 0 ]} ∧
   (∃ ref, useUpdate ∅ (Some {[ "subscribe" := VFun 0 ]}) 1 None 3 = Ok ref)).
Proof.
  split.
  - refine (proj1 (hooks_throw_outside_canvas ∅ None 1 (Some 2%Z) None 3) _).
    reflexivity.
  - refine (proj2 (hooks_throw_outside_canvas ∅
                     (Some {[ "subscribe" := VFun 0 ]}) 1 (Some 2%Z) None 3) _).
    exists (VFun 0). reflexivity.
Defined.

End HooksFacts.

(** ** unmount *)

Section UnmountFacts.
Import Js TestRenderer.



Lemma obj_cleared_eq h m d (r : nat) :
  obj {| heap := <[r := ∅]> h; mockRoots := m; disposed := d |} r = ∅.
Proof. unfold obj. simpl. by rewrite lookup_insert_eq. Qed.





End UnmountFacts.

(** ** The pointer-event layer *)

Section EventsFacts.
Import Events.

Variable scene : nat → Object3D.
Variable intersectObjects : option Event → list Hit.

Local Abbreviation intersect := (Events.intersect scene intersectObjects).
Local Abbreviation pick_hits := (Events.pick_hits scene intersectObjects).
Local Abbreviation handleIntersects := (Events.handleIntersects scene intersectObjects).
Local Abbreviation handler_of := (Events.handler_of scene).
Local Abbreviation pointer_fn := (Events.pointer_fn scene).
Local Abbreviation handlePointer := (Events.handlePointer scene intersectObjects).
Local Abbreviation unhover := (Events.unhover scene).
Local Abbreviation move_fn := (Events.move_fn scene).
Local Abbreviation handlePointerCancel := (Events.handlePointerCancel scene intersectObjects).
Local Abbreviation handlePointerMove := (Events.handlePointerMove scene intersectObjects).
Local Abbreviation deliver := (Events.deliver scene intersectObjects).

Lemma foldl_preserves {A B} (P : A → Prop) (f : A → B → A) (l : list B) (a : A) :
  (∀ s d, P s → P (f s d)) → P a → P (foldl f a l).
Proof.
  intros Hf. revert a. induction l as [|x l IH]; intros a Ha; [done|].
  simpl. apply IH, Hf, Ha.
Qed.

Lemma forward_preserves (P : State → Prop) ev fn hits st :
  (∀ c s, P s → P (set_cells c s)) →
  (∀ d s, P s → P (fn d s)) →
  P st → P (forward ev fn hits st).
Proof.
  intros Hc Hf. revert st. induction hits as [|hit rest IH]; intros st Hst; [done|].
  cbn [forward]. destruct (cell _ _); [|apply IH]; apply Hf, Hc, Hst.
Qed.

Lemma frame_invoke name h d st : frame_of (invoke name h d st) = frame_of st.
Proof. unfold invoke. by destruct (h d). Qed.

Lemma frame_unhover d st : frame_of (unhover d st) = frame_of st.
Proof.
  unfold unhover. destruct (Events.handler_of _ _ _); [|done].
  change (frame_of (set_hovered ?h ?s)) with (frame_of s). apply frame_invoke.
Qed.

Lemma frame_pointer_fn name d st :
  frame_of (pointer_fn name d st) = frame_of st.
Proof. unfold pointer_fn. destruct (Events.handler_of _ _ _); [apply frame_invoke|done]. Qed.

Lemma frame_move_fn d st : frame_of (move_fn d st) = frame_of st.
Proof.
  unfold move_fn.
  set (st1 := match handler_of (object (d_hit d)) "pointerMove" with
              | Some h => invoke "pointerMove" h d st
              | None => st
              end).
  assert (H1 : frame_of st1 = frame_of st).
  { subst st1. destruct (Events.handler_of _ _ "pointerMove"); [apply frame_invoke|done]. }
  destruct (Events.handler_of _ _ "pointerOver"); [|done].
  destruct (hov_get _ _).
  - destruct (cell _ _); [|done].
    apply (foldl_preserves (λ s, frame_of s = frame_of st)); [|done].
    intros s x Hs. destruct (negb _); [|done]. by rewrite frame_unhover.
  - by rewrite frame_invoke.
Qed.

Lemma frame_forward ev fn hits st :
  (∀ d s, frame_of (fn d s) = frame_of s) →
  frame_of (forward ev fn hits st) = frame_of st.
Proof.
  intros Hfn. apply (forward_preserves (λ s, frame_of s = frame_of st)); [| |done].
  - by intros c s Hs.
  - intros d s Hs. by rewrite Hfn.
Qed.

Lemma frame_cancel_hits ev hits st :
  frame_of (handlePointerCancel ev (Some hits) st)
  = frame_of st.
Proof.
  unfold handlePointerCancel.
  apply (foldl_preserves (λ s, frame_of s = frame_of st)); [|done].
  intros s d Hs. destruct (_ || _); [|done]. by rewrite frame_unhover.
Qed.

Lemma forward_null ev hits st :
  trace (forward ev (λ _ s, s) hits st) = trace st ∧
  hovered (forward ev (λ _ s, s) hits st) = hovered st ∧
  frame_of (forward ev (λ _ s, s) hits st) = frame_of st.
Proof.
  apply (forward_preserves
           (λ s, trace s = trace st ∧ hovered s = hovered st
                 ∧ frame_of s = frame_of st)); [| |done].
  - by intros c s Hs.
  - by intros d s Hs.
Qed.

Lemma pick_hits_same ev st :
  trace (pick_hits ev st).1 = trace st ∧
  hovered (pick_hits ev st).1 = hovered st ∧
  cells (pick_hits ev st).1 = cells st ∧
  ready (pick_hits ev st).1 = ready st ∧
  captured (pick_hits ev st).1 = captured st.
Proof.
  unfold Events.pick_hits, Events.intersect.
  destruct (captured st) eqn:Hc; [destruct (_ && _)|]; by rewrite ?Hc.
Qed.

Lemma frame_ready st st' : frame_of st' = frame_of st → ready st' = ready st.
Proof. unfold frame_of. by intros [= -> _ _]. Qed.

Lemma frame_captured st st' :
  frame_of st' = frame_of st → captured st' = captured st.
Proof. unfold frame_of. by intros [= _ -> _]. Qed.

Lemma frame_raycasts st st' :
  frame_of st' = frame_of st → raycasts st' = raycasts st.
Proof. unfold frame_of. by intros [= _ _ ->]. Qed.

Lemma deliver_not_ready (b : Binding) ev st :
  ready st = false → dispatching b = true → deliver b ev st = st.
Proof.
  intros Hr Hb. destruct b; try discriminate Hb;
    unfold Events.deliver, Events.handlePointer, Events.handlePointerMove;
    by rewrite Hr.
Qed.

(** C9 (as the code has it). While [ready] is false the handlers bound to
    click, wheel, pointer-down, pointer-up and pointer-move return at once
    and leave the state as it is: no ray is cast and no handler runs. In a
    state that is not ready and has no hover entry, no binding at all runs
    a handler or makes a hover entry or sets [ready]. *)
Theorem no_dispatch_before_ready (b : Binding) (ev : Event) (st : State) :
  ready st = false →
  (dispatching b = true → deliver b ev st = st) ∧
  (hovered st = [] →
     trace (deliver b ev st) = trace st ∧
     hovered (deliver b ev st) = [] ∧
     ready (deliver b ev st) = false).
Proof.
  intros Hr. split.
  - by apply deliver_not_ready.
  - intros Hh.
    destruct b; unfold Events.deliver, Events.handlePointer,
      Events.handlePointerMove; rewrite ?Hr; cbn [negb]; try done.
    + unfold Events.handlePointerCancel. by rewrite Hh.
    + unfold Events.handlePointerCancel, Events.handleIntersects.
      destruct (pick_hits ev (prepareRay ev (set_captured None st)))
        as [st1 hits] eqn:Hp.
      destruct (pick_hits_same ev (prepareRay ev (set_captured None st)))
        as (Ht & Hhov & _ & Hrd & _).
      rewrite Hp in Ht, Hhov, Hrd. simpl in Ht, Hhov, Hrd.
      destruct (forward_null ev hits st1) as (Ht' & Hhov' & Hf').
      rewrite Hhov', Hhov, Hh. simpl.
      rewrite Ht', Ht, Hhov', Hhov, Hh, (frame_ready _ _ Hf'), Hrd. done.
Qed.

Lemma pick_hits_captured ev st hs :
  captured st = Some hs → type ev ≠ "click" → type ev ≠ "wheel" →
  pick_hits ev st = (st, hs).
Proof.
  intros Hc Hclick Hwheel. unfold Events.pick_hits. rewrite Hc.
  apply String.eqb_neq in Hclick, Hwheel. by rewrite Hclick, Hwheel.
Qed.

Lemma pick_hits_recast ev st :
  captured st = None ∨ type ev = "click" ∨ type ev = "wheel" →
  pick_hits ev st = intersect ev false st.
Proof.
  intros H. unfold Events.pick_hits. destruct (captured st); [|done].
  destruct H as [H|[H|H]]; [done| |]; rewrite H; [done|].
  by rewrite andb_false_r.
Qed.

Lemma handleIntersects_recast ev fn st :
  captured st = None ∨ type ev = "click" ∨ type ev = "wheel" →
  handleIntersects ev fn st
  = (forward ev fn
       (filter (λ h, is_Some (__handlers (scene (object h))))
          (intersectObjects (Some ev)))
       (set_raycasts (S (raycasts st)) (prepareRay ev st)),
     filter (λ h, is_Some (__handlers (scene (object h))))
       (intersectObjects (Some ev))).
Proof.
  intros H. unfold Events.handleIntersects.
  by rewrite pick_hits_recast by done.
Qed.

Lemma frame_cancel_loop (hits : list Hit) (ds : list Data) st :
  frame_of
    (foldl
       (λ s data,
          if Nat.eqb (length hits) 0
             || negb (existsb (λ i, Nat.eqb (object i) (object (d_hit data))) hits)
          then unhover data s else s) st ds)
  = frame_of st.
Proof.
  apply (foldl_preserves (λ s, frame_of s = frame_of st)); [|done].
  intros s d Hs. destruct (_ || _); [|done]. by rewrite frame_unhover.
Qed.

Local Abbreviation hover_key := (Events.hover_key scene).
Local Abbreviation pointerOut_calls := (Events.pointerOut_calls scene).
Local Abbreviation hover_ok := (Events.hover_ok scene).
Local Abbreviation dispatched_hits := (Events.dispatched_hits scene intersectObjects).

Lemma trace_invoke name h d st :
  trace (invoke name h d st)
  = trace st ++ [{| c_name := name; c_data := d; c_stop := h d |}].
Proof. unfold invoke. by destruct (h d). Qed.

Lemma hovered_invoke name h d st : hovered (invoke name h d st) = hovered st.
Proof. unfold invoke. by destruct (h d). Qed.

Lemma hovered_invoke_below n name h d st :
  hover_cells_below n (invoke name h d st) = hover_cells_below n st.
Proof. unfold hover_cells_below. by rewrite hovered_invoke. Qed.

Lemma trace_unhover d st :
  trace (unhover d st) = trace st ++ pointerOut_calls [d].
Proof.
  unfold Events.unhover, Events.pointerOut_calls. cbn [flat_map trace set_hovered].
  destruct (Events.handler_of _ _ _).
  - by rewrite trace_invoke, app_nil_r.
  - by rewrite !app_nil_r.
Qed.

Lemma hovered_unhover d st :
  hovered (unhover d st) = hov_delete (hover_key d) (hovered st).
Proof.
  unfold Events.unhover. cbn [hovered set_hovered].
  destruct (Events.handler_of _ _ _); [|done]. by rewrite hovered_invoke.
Qed.

Lemma pointerOut_calls_app ds1 ds2 :
  pointerOut_calls (ds1 ++ ds2) = pointerOut_calls ds1 ++ pointerOut_calls ds2.
Proof. unfold Events.pointerOut_calls. apply flat_map_app. Qed.

Lemma elem_of_pointerOut_calls c ds :
  c ∈ pointerOut_calls ds →
  ∃ d, d ∈ ds ∧ c_name c = "pointerOut" ∧ c_data c = with_type "pointerout" d.
Proof.
  unfold Events.pointerOut_calls. rewrite list_elem_of_In, in_flat_map.
  intros (d & Hd & Hc). exists d. rewrite list_elem_of_In. split; [done|].
  destruct (Events.handler_of _ _ _); [|by destruct Hc].
  destruct Hc as [<-|[]]. done.
Qed.

(** An unhover loop guarded by [c]: the calls it makes and the entries it
    deletes. *)
Lemma unhover_loop (c : Data → bool) (ds : list Data) st :
  let st' := foldl (λ s d, if c d then unhover d s else s) st ds in
  trace st' = trace st ++ pointerOut_calls (filter (λ d, c d = true) ds) ∧
  hovered st'
  = filter (λ e, e.1 ∉ hover_key <$> filter (λ d, c d = true) ds) (hovered st).
Proof.
  revert st. induction ds as [|d ds IH]; intros st; cbn zeta.
  - simpl. rewrite app_nil_r. split; [done|].
    symmetry. apply filter_all. apply Forall_forall.
    intros e _. apply not_elem_of_nil.
  - cbn [foldl]. destruct (IH (if c d then unhover d st else st)) as [Ht Hh].
    cbn zeta in Ht, Hh. rewrite Ht, Hh. clear Ht Hh IH.
    destruct (c d) eqn:Hc.
    + rewrite filter_cons_True by done.
      rewrite trace_unhover, hovered_unhover, <- app_assoc.
      change (d :: filter (λ d0, c d0 = true) ds)
        with ([d] ++ filter (λ d0, c d0 = true) ds).
      rewrite pointerOut_calls_app. split; [done|].
      unfold hov_delete. rewrite list_filter_filter.
      apply list_filter_iff. intros e. rewrite fmap_app. cbn [fmap list_fmap].
      rewrite elem_of_app, list_elem_of_singleton. tauto.
    + rewrite filter_cons_False by (by rewrite Hc). done.
Qed.

Lemma cancel_loop_empty (ds : list Data) :
  filter
    (λ d, Nat.eqb (length (@nil Hit)) 0
          || negb (existsb (λ i, Nat.eqb (object i) (object (d_hit d))) [])
          = true) ds
  = ds.
Proof. apply filter_all, Forall_forall. by intros d _. Qed.

Lemma hover_emptied (m : list (string * Data)) :
  Forall (λ e, e.1 = hover_key e.2) m →
  filter (λ e, e.1 ∉ hover_key <$> (snd <$> m)) m = [].
Proof.
  intros Hk. apply filter_none. apply Forall_forall. intros [k d] Hin Hnot.
  apply Hnot. rewrite Forall_forall in Hk. rewrite (Hk _ Hin). cbn [fst snd].
  apply list_elem_of_fmap_2. by apply (list_elem_of_fmap_2 snd) in Hin.
Qed.

Lemma cancel_empty ev st :
  hover_ok st →
  trace (handlePointerCancel ev (Some []) st)
  = trace st ++ pointerOut_calls (snd <$> hovered st) ∧
  hovered (handlePointerCancel ev (Some []) st) = [].
Proof.
  intros [Hk _]. unfold Events.handlePointerCancel.
  destruct (unhover_loop
              (λ d, Nat.eqb (length (@nil Hit)) 0
                    || negb (existsb (λ i, Nat.eqb (object i) (object (d_hit d))) []))
              (snd <$> hovered st) st) as [Ht Hh].
  cbn zeta in Ht, Hh. rewrite cancel_loop_empty in Ht, Hh.
  split; [exact Ht|]. rewrite Hh. by apply hover_emptied.
Qed.

Lemma move_empty ev st :
  hover_ok st → ready st = true → (handleIntersects ev move_fn st).2 = [] →
  trace (handlePointerMove ev st)
  = trace st ++ pointerOut_calls (snd <$> hovered st) ∧
  hovered (handlePointerMove ev st) = [].
Proof.
  intros Hok Hr Hempty. unfold Events.handlePointerMove.
  rewrite Hr. cbn [negb].
  unfold Events.handleIntersects in *.
  destruct (pick_hits ev (prepareRay ev st)) as [st1 hits] eqn:Hp.
  simpl in Hempty. subst hits. cbn [forward].
  destruct (pick_hits_same ev (prepareRay ev st)) as (Ht & Hh & _).
  rewrite Hp in Ht, Hh. simpl in Ht, Hh.
  assert (Hok1 : hover_ok st1).
  { unfold Events.hover_ok. by rewrite Hh. }
  destruct (cancel_empty ev st1 Hok1) as [Ht1 Hh1].
  by rewrite Ht1, Hh1, Ht, Hh.
Qed.


Lemma cell_stopPropagation d st :
  (d_stopped d < length (cells st))%nat →
  cell (stopPropagation d st) (d_stopped d) = true.
Proof.
  intros Hlt. unfold cell, stopPropagation. cbn [cells set_cells].
  by rewrite list_lookup_insert_eq.
Qed.

Lemma cell_stopPropagation_mono d st r :
  cell st r = true → cell (stopPropagation d st) r = true.
Proof.
  unfold cell, stopPropagation. cbn [cells set_cells]. intros Hr.
  destruct (decide (d_stopped d = r)) as [->|Hne].
  - destruct (decide (r < length (cells st))%nat) as [Hlt|Hge].
    + by rewrite list_lookup_insert_eq.
    + rewrite list_insert_ge by lia. done.
  - by rewrite list_lookup_insert_ne.
Qed.

Lemma cells_invoke_length name h d st :
  length (cells (invoke name h d st)) = length (cells st).
Proof.
  unfold invoke, stopPropagation. destruct (h d); [|done].
  cbn [cells set_cells set_trace]. apply length_insert.
Qed.

Lemma cell_invoke_mono name h d st r :
  cell st r = true → cell (invoke name h d st) r = true.
Proof.
  intros Hr. unfold invoke. destruct (h d); [|done].
  by apply cell_stopPropagation_mono.
Qed.

Lemma cell_invoke_stop name h d st :
  (d_stopped d < length (cells st))%nat → h d = true →
  cell (invoke name h d st) (d_stopped d) = true.
Proof.
  intros Hlt Hh. unfold invoke. rewrite Hh.
  by apply cell_stopPropagation.
Qed.

(** The calls [move_fn] makes on a hit that was not hovered before. *)
Lemma move_fn_enter d st over :
  Events.handler_of scene (object (d_hit d)) "pointerOver" = Some over →
  hov_get (hover_key d) (hovered st) = None →
  trace (move_fn d st)
  = trace st
    ++ match Events.handler_of scene (object (d_hit d)) "pointerMove" with
       | Some h => [{| c_name := "pointerMove"; c_data := d; c_stop := h d |}]
       | None => []
       end
    ++ [{| c_name := "pointerOver"; c_data := with_type "pointerover" d;
           c_stop := over (with_type "pointerover" d) |}] ∧
  hovered (move_fn d st) = hov_set (hover_key d) d (hovered st) ∧
  ((d_stopped d < length (cells st))%nat →
   over (with_type "pointerover" d) = true →
   cell (move_fn d st) (d_stopped d) = true).
Proof.
  intros Hov Hnone. unfold Events.move_fn. cbv zeta. rewrite Hov.
  fold (hover_key d).
  destruct (Events.handler_of scene (object (d_hit d)) "pointerMove") as [mv|].
  - rewrite hovered_invoke, Hnone.
    rewrite !trace_invoke, !hovered_invoke. cbn [trace hovered set_hovered].
    rewrite !trace_invoke, ?hovered_invoke, <- app_assoc.
    split_and!; [done..|].
    intros Hlt Hstop.
    apply (cell_invoke_stop _ _ (with_type "pointerover" d)); [|done].
    cbn [with_type d_stopped cells set_hovered].
    by rewrite cells_invoke_length.
  - rewrite Hnone. rewrite trace_invoke, hovered_invoke.
    cbn [trace hovered set_hovered app]. split_and!; [done..|].
    intros Hlt Hstop.
    by apply (cell_invoke_stop _ _ (with_type "pointerover" d)).
Qed.

(** C1. Starting without hover entries and without capture: when a
    pointer-move hits A and then B, A has [pointerOver] and [pointerOut]
    handlers and A's [pointerOver] handler stops propagation, every
    handler call of the event is on A's hit, exactly one of them is a
    [pointerOver] call, and A's entry is the only hover entry. When the
    next pointer-move hits nothing, the only call is A's [pointerOut] and
    the hover map is empty afterwards. *)
Theorem hover_enter_and_leave (ev1 ev2 : Event) (st : State) (hA hB : Hit)
    (hsA hsB : string → option Handler) (overA outA : Handler) :
  ready st = true → captured st = None → hovered st = [] →
  object hA ≠ object hB →
  __handlers (scene (object hA)) = Some hsA →
  hsA "pointerOver" = Some overA → hsA "pointerOut" = Some outA →
  __handlers (scene (object hB)) = Some hsB →
  (∀ d, overA d = true) →
  intersectObjects (Some ev1) = [hA; hB] →
  intersectObjects (Some ev2) = [] →
  let dA := {| d_event := ev1; d_type := type ev1; d_hit := hA;
               d_stopped := length (cells st) |} in
  let st1 := handlePointerMove ev1 st in
  let st2 := handlePointerMove ev2 st1 in
  (∃ new1, trace st1 = trace st ++ new1 ∧
     Forall (λ c, d_hit (c_data c) = hA
                  ∧ object (d_hit (c_data c)) ≠ object hB) new1 ∧
     filter (λ c, c_name c = "pointerOver") new1
     = [{| c_name := "pointerOver"; c_data := with_type "pointerover" dA;
           c_stop := true |}]) ∧
  hovered st1 = [(uuid (scene (object hA)), dA)] ∧
  Forall (λ e, object (d_hit e.2) ≠ object hB) (hovered st1) ∧
  trace st2
  = trace st1
    ++ [{| c_name := "pointerOut"; c_data := with_type "pointerout" dA;
           c_stop := outA (with_type "pointerout" dA) |}] ∧
  hovered st2 = [].
Proof.
  intros Hr Hcap Hhov Hab HhA Hover Hout HhB Hstop Hhits1 Hhits2 dA st1 st2.
  assert (Hov : Events.handler_of scene (object hA) "pointerOver" = Some overA).
  { unfold Events.handler_of. by rewrite HhA. }
  assert (HoutA : Events.handler_of scene (object hA) "pointerOut" = Some outA).
  { unfold Events.handler_of. by rewrite HhA. }
  (* the first pointer-move: the loop stops after A *)
  set (sta := set_cells (cells st ++ [false])
                (set_raycasts (S (raycasts st)) (prepareRay ev1 st))).
  set (stb := move_fn dA sta).
  assert (Hst1 : st1 = handlePointerCancel ev1 (Some [hA; hB]) stb).
  { subst st1. unfold Events.handlePointerMove. rewrite Hr. cbn [negb].
    rewrite handleIntersects_recast by (by left). rewrite Hhits1.
    rewrite filter_cons_True by (by rewrite HhA).
    rewrite filter_cons_True by (by rewrite HhB).
    rewrite filter_nil. cbn [forward].
    change (cells (set_raycasts (S (raycasts st)) (prepareRay ev1 st)))
      with (cells st).
    fold dA. fold sta. fold stb.
    destruct (move_fn_enter dA sta overA Hov) as (_ & _ & Hcell).
    { unfold sta. cbn [hovered set_cells set_raycasts prepareRay set_ray].
      by rewrite Hhov. }
    assert (Hset : cell stb (length (cells st)) = true).
    { apply Hcell; [|apply Hstop].
      unfold sta, dA. cbn [cells set_cells d_stopped].
      rewrite length_app. simpl. lia. }
    by rewrite Hset. }
  destruct (move_fn_enter dA sta overA Hov) as (Htb & Hhb & _).
  { unfold sta. cbn [hovered set_cells set_raycasts prepareRay set_ray].
    by rewrite Hhov. }
  fold stb in Htb, Hhb.
  change (hovered sta) with (hovered st) in Hhb. rewrite Hhov in Hhb.
  change (trace sta) with (trace st) in Htb.
  cbn [hov_set] in Hhb. rewrite Hstop in Htb.
  (* unhover after the first move: A is among the hits *)
  set (c1 := λ data : Data,
         Nat.eqb (length [hA; hB]) 0
         || negb (existsb (λ i, Nat.eqb (object i) (object (d_hit data))) [hA; hB])).
  assert (Hloop1 : st1 = foldl (λ s d, if c1 d then unhover d s else s) stb
                           (snd <$> hovered stb)).
  { by rewrite Hst1. }
  destruct (unhover_loop c1 (snd <$> hovered stb) stb) as [Ht1 Hh1].
  cbn zeta in Ht1, Hh1. rewrite <- Hloop1 in Ht1, Hh1.
  rewrite Hhb in Ht1, Hh1. cbn [fmap list_fmap snd] in Ht1, Hh1.
  assert (Hc1 : c1 dA = false).
  { unfold c1, dA. cbn [length Nat.eqb orb existsb d_hit].
    by rewrite Nat.eqb_refl. }
  rewrite filter_cons_False, filter_nil in Ht1, Hh1 by (by rewrite Hc1).
  cbn [fmap list_fmap] in Hh1.
  rewrite app_nil_r in Ht1.
  rewrite filter_all in Hh1
    by (apply Forall_forall; intros e _; apply not_elem_of_nil).
  assert (Hframe1 : frame_of st1 = frame_of sta).
  { rewrite Hst1, frame_cancel_hits. unfold stb. by rewrite frame_move_fn. }
  (* the second pointer-move: nothing is hit *)
  assert (Hok1 : hover_ok st1).
  { unfold Events.hover_ok. rewrite Hh1. split.
    - by apply Forall_singleton.
    - apply NoDup_singleton. }
  assert (Hempty : (handleIntersects ev2 move_fn st1).2 = []).
  { rewrite handleIntersects_recast.
    - cbn [snd]. by rewrite Hhits2.
    - left. rewrite (frame_captured _ _ Hframe1). exact Hcap. }
  destruct (move_empty ev2 st1 Hok1) as [Ht2 Hh2]; [|done|].
  { rewrite (frame_ready _ _ Hframe1). exact Hr. }
  fold st2 in Ht2, Hh2.
  rewrite Hh1 in Ht2. unfold Events.pointerOut_calls in Ht2.
  cbn [fmap list_fmap snd flat_map] in Ht2.
  change (d_hit dA) with hA in Ht2. rewrite HoutA, app_nil_r in Ht2.
  split_and!; [|done| |done..].
  2: { rewrite Hh1. by apply Forall_singleton. }
  eexists. split; [by rewrite Ht1, Htb|]. split.
  - apply Forall_app. split; [|by apply Forall_singleton].
    destruct (Events.handler_of scene (object (d_hit dA)) "pointerMove");
      [by apply Forall_singleton|apply Forall_nil_2].
  - rewrite filter_app.
    rewrite filter_cons_True, filter_nil by done.
    destruct (Events.handler_of scene (object (d_hit dA)) "pointerMove").
    + rewrite filter_cons_False, filter_nil by (cbn [c_name]; congruence). done.
    + done.
Qed.

(** C5. While a capture is held, an event that is neither a click nor a
    wheel event is dispatched over the captured hits and casts no ray; a
    click or a wheel event is dispatched over a new intersection, which
    casts one; losing the capture clears the captured hits. *)
Theorem capture_reuses_hits (ev : Event) (st : State) (hs : list Hit) :
  captured st = Some hs →
  (type ev ≠ "click" → type ev ≠ "wheel" →
     (∀ fn, handleIntersects ev fn st
            = (forward ev fn hs (prepareRay ev st), hs)) ∧
     (ready st = true →
        (∀ name, handlePointer name ev st
                 = forward ev (pointer_fn name) hs (prepareRay ev st)) ∧
        handlePointerMove ev st
        = handlePointerCancel ev (Some hs)
            (forward ev move_fn hs (prepareRay ev st))) ∧
     (∀ b, dispatching b = true →
           raycasts (deliver b ev st) = raycasts st)) ∧
  (type ev = "click" ∨ type ev = "wheel" →
     (∀ fn, (handleIntersects ev fn st).2
            = filter (λ h, is_Some (__handlers (scene (object h))))
                (intersectObjects (Some ev))) ∧
     (ready st = true →
        ∀ name, raycasts (handlePointer name ev st) = S (raycasts st))) ∧
  (∀ ev', captured (deliver onLostPointerCapture ev' st) = None).
Proof.
  intros Hc. split_and!.
  - intros Hclick Hwheel.
    assert (Hall : ∀ fn, handleIntersects ev fn st
                          = (forward ev fn hs (prepareRay ev st), hs)).
    { intros fn. unfold Events.handleIntersects.
      by rewrite (pick_hits_captured ev (prepareRay ev st) hs Hc Hclick Hwheel). }
    assert (Hptr : ∀ name, ready st = true →
              handlePointer name ev st
              = forward ev (pointer_fn name) hs (prepareRay ev st)).
    { intros name Hr. unfold Events.handlePointer. by rewrite Hr, Hall. }
    assert (Hmove : ready st = true →
              handlePointerMove ev st
              = handlePointerCancel ev (Some hs)
                  (forward ev move_fn hs (prepareRay ev st))).
    { intros Hr. unfold Events.handlePointerMove. by rewrite Hr, Hall. }
    split_and!;
      [done | intros Hr; split; [intros name; by apply Hptr | by apply Hmove] |].
    intros b Hb. destruct (ready st) eqn:Hr.
    + destruct b; try discriminate; unfold Events.deliver;
        rewrite ?Hptr, ?Hmove by done;
        apply frame_raycasts;
        rewrite ?frame_cancel_hits, frame_forward;
        auto using frame_pointer_fn, frame_move_fn.
    + by rewrite (deliver_not_ready b ev st Hr Hb).
  - intros Hty. split.
    + intros fn. by rewrite handleIntersects_recast by (right; exact Hty).
    + intros Hr name. unfold Events.handlePointer. rewrite Hr.
      rewrite handleIntersects_recast by (right; exact Hty).
      cbn [negb fst].
      rewrite (frame_raycasts (set_raycasts (S (raycasts st)) (prepareRay ev st)))
        by (rewrite frame_forward by apply frame_pointer_fn; done).
      done.
  - intros ev'. unfold Events.deliver, Events.handlePointerCancel.
    destruct (handleIntersects ev' (λ _ s, s) (set_captured None st))
      as [st1 hits1] eqn:Hh.
    rewrite (frame_captured st1) by apply frame_cancel_loop.
    rewrite handleIntersects_recast in Hh by (by left).
    injection Hh as <- _.
    by rewrite (frame_captured _ _ (proj2 (proj2 (forward_null _ _ _)))).
Qed.

Lemma hover_cells_below_le n m st :
  (n ≤ m)%nat → hover_cells_below n st → hover_cells_below m st.
Proof.
  unfold hover_cells_below. intros Hle Hn.
  eapply Forall_impl; [exact Hn|]. intros e He. simpl in *. lia.
Qed.

Lemma sorted_constant (n : nat) (l : list nat) :
  Forall (λ x, x = n) l → StronglySorted le l.
Proof.
  induction 1 as [|x l -> Hl IH]; constructor; [done|].
  eapply Forall_impl; [exact Hl|]. intros y Hy. simpl in Hy. lia.
Qed.

Lemma dispatch_cells_app l1 l2 :
  dispatch_cells (l1 ++ l2) = dispatch_cells l1 ++ dispatch_cells l2.
Proof. unfold dispatch_cells. by rewrite filter_app, fmap_app. Qed.

Lemma elem_of_dispatch_cells r l :
  r ∈ dispatch_cells l →
  ∃ c, c ∈ l ∧ c_name c ≠ "pointerOut" ∧ d_stopped (c_data c) = r.
Proof.
  unfold dispatch_cells. intros (c & -> & Hc)%list_elem_of_fmap.
  apply list_elem_of_filter in Hc as [Hname Hc]. by exists c.
Qed.

Lemma extends_step_ok fn :
  (∀ d s, (d_stopped d < length (cells s))%nat →
          ∃ seg, extends (length (cells s)) d s (fn d s) seg) →
  step_ok fn.
Proof.
  intros Hfn d s Hd Hhov. destruct (Hfn d s Hd) as (seg & Hext).
  destruct (Hext eq_refl Hhov) as (Ht & Hl & _ & Hh & Hseg).
  exists seg. by split_and!.
Qed.

Lemma extends_refl n d s : extends n d s s [].
Proof. intros Hn Hhov. rewrite app_nil_r. by split_and!. Qed.

Lemma extends_trans n d s s1 s2 seg1 seg2 :
  extends n d s s1 seg1 → extends n d s1 s2 seg2 →
  extends n d s s2 (seg1 ++ seg2).
Proof.
  intros H1 H2 Hn Hhov.
  destruct (H1 Hn Hhov) as (Ht1 & Hl1 & Hm1 & Hh1 & Hs1).
  destruct (H2 Hl1 Hh1) as (Ht2 & Hl2 & Hm2 & Hh2 & Hs2).
  split_and!;
    [by rewrite Ht2, Ht1, app_assoc|done|intros r Hr; by apply Hm2, Hm1|done|].
  apply Forall_app. split; [|done].
  eapply Forall_impl; [exact Hs1|]. intros c [Hlt Hd]. split; [done|].
  intros Hname. destruct (Hd Hname) as (? & ? & ? & Hstop).
  split_and!; [done..|]. intros Hc. by apply Hm2, Hstop.
Qed.

Lemma extends_invoke n d name h d' s :
  (d_stopped d < n)%nat →
  d_event d' = d_event d → d_hit d' = d_hit d → d_stopped d' = d_stopped d →
  extends n d s (invoke name h d' s)
    [{| c_name := name; c_data := d'; c_stop := h d' |}].
Proof.
  intros Hd He Hh Hs Hn Hhov.
  rewrite trace_invoke, cells_invoke_length, hovered_invoke_below.
  split_and!; [done..|by apply cell_invoke_mono|done|].
  apply Forall_singleton. cbn [c_data c_stop]. split; [lia|].
  intros _. split_and!; [done..|]. intros Hstop. rewrite <- Hs.
  apply cell_invoke_stop; [lia|done].
Qed.

Lemma extends_unhover n d d' s :
  (d_stopped d' < n)%nat →
  extends n d s (unhover d' s) (pointerOut_calls [d']).
Proof.
  intros Hd' Hn Hhov. rewrite trace_unhover.
  unfold Events.unhover, Events.pointerOut_calls. cbn [flat_map].
  destruct (Events.handler_of _ _ _) as [h|].
  - cbn [cells set_hovered]. rewrite cells_invoke_length.
    split_and!; [done..| | |].
    + intros r Hr.
      exact (cell_invoke_mono "pointerOut" h (with_type "pointerout" d') s r Hr).
    + unfold hover_cells_below. cbn [hovered set_hovered].
      rewrite hovered_invoke. unfold hov_delete.
      apply Forall_forall. intros e [_ He]%list_elem_of_filter.
      unfold hover_cells_below in Hhov. rewrite Forall_forall in Hhov. auto.
    + rewrite app_nil_r. apply Forall_singleton. cbn [c_name c_data].
      split; [done|]. by intros Hname.
  - split_and!; [done..| |constructor].
    unfold hover_cells_below. cbn [hovered set_hovered]. unfold hov_delete.
    apply Forall_forall. intros e [_ He]%list_elem_of_filter.
    unfold hover_cells_below in Hhov. rewrite Forall_forall in Hhov. auto.
Qed.

Lemma extends_unhover_loop n d (c : Data → bool) (ds : list Data) s :
  Forall (λ d', (d_stopped d' < n)%nat) ds →
  extends n d s (foldl (λ s d', if c d' then unhover d' s else s) s ds)
    (pointerOut_calls (filter (λ d', c d' = true) ds)).
Proof.
  intros Hds. revert s. induction Hds as [|d' ds Hd' _ IH]; intros s.
  - apply extends_refl.
  - cbn [foldl]. specialize (IH (if c d' then unhover d' s else s)).
    destruct (c d') eqn:Hc.
    + rewrite filter_cons_True by done.
      change (d' :: filter (λ d0, c d0 = true) ds)
        with ([d'] ++ filter (λ d0, c d0 = true) ds).
      rewrite pointerOut_calls_app.
      eapply extends_trans; [by apply extends_unhover|exact IH].
    + rewrite filter_cons_False by (by rewrite Hc). exact IH.
Qed.

Lemma extends_unhover_hovered n d (c : Data → bool) s :
  extends n d s
    (foldl (λ s d', if c d' then unhover d' s else s) s (snd <$> hovered s))
    (pointerOut_calls (filter (λ d', c d' = true) (snd <$> hovered s))).
Proof.
  intros Hn Hhov. apply extends_unhover_loop; [|done..].
  unfold hover_cells_below in Hhov. by apply Forall_fmap.
Qed.

Lemma extends_stopPropagation n d s :
  extends n d s (stopPropagation d s) [].
Proof.
  intros Hn Hhov. unfold stopPropagation. cbn [trace cells set_cells].
  rewrite app_nil_r, length_insert.
  split_and!; [done..| |done|constructor].
  intros r Hr. by apply (cell_stopPropagation_mono d) in Hr.
Qed.

Lemma extends_book n d k s :
  (d_stopped d < n)%nat →
  extends n d s (set_hovered (hov_set k d (hovered s)) s) [].
Proof.
  intros Hd Hn Hhov. cbn [trace cells set_hovered]. rewrite app_nil_r.
  split_and!; [done..| |constructor].
  unfold hover_cells_below in *. cbn [hovered set_hovered].
  induction Hhov as [|[k' d'] m He Hm IH]; cbn [hov_set].
  - by apply Forall_singleton.
  - destruct (String.eqb k' k); constructor; done.
Qed.

Lemma step_ok_pointer_fn name : step_ok (pointer_fn name).
Proof.
  apply extends_step_ok. intros d s Hd. unfold Events.pointer_fn.
  destruct (Events.handler_of _ _ _) as [h|].
  - eexists. by apply extends_invoke.
  - exists []. apply extends_refl.
Qed.

Lemma step_ok_move_fn : step_ok move_fn.
Proof.
  apply extends_step_ok. intros d s Hd.
  set (n := length (cells s)) in *.
  unfold Events.move_fn. cbv zeta.
  set (s1 := match Events.handler_of scene (object (d_hit d)) "pointerMove" with
             | Some h => invoke "pointerMove" h d s
             | None => s
             end).
  assert (H1 : ∃ seg1, extends n d s s1 seg1).
  { subst s1. destruct (Events.handler_of _ _ "pointerMove") as [mv|].
    - eexists. by apply extends_invoke.
    - exists []. apply extends_refl. }
  destruct H1 as (seg1 & H1).
  destruct (Events.handler_of _ _ "pointerOver") as [over|]; [|by exists seg1].
  destruct (hov_get _ _) as [prev|].
  - destruct (cell s1 (d_stopped prev)); [|by exists seg1].
    eexists. eapply extends_trans; [exact H1|].
    eapply extends_trans; [apply extends_stopPropagation|].
    apply (extends_unhover_hovered n d
             (λ d', negb (String.eqb (uuid (scene (object (d_hit d'))))
                            (uuid (scene (object (d_hit d))))))).
  - eexists. eapply extends_trans; [exact H1|].
    eapply extends_trans; [by apply extends_book|].
    by apply extends_invoke.
Qed.

(** The dispatch loop: [n] hits are visited; the calls that hand the event
    to a hit do so in the order of the hits, each with the cell of its
    hit, and a call that stopped propagation belongs to the last visited
    hit. *)
Lemma forward_dispatch ev fn hits st :
  step_ok fn →
  hover_cells_below (length (cells st)) st →
  ∃ new n,
    trace (forward ev fn hits st) = trace st ++ new ∧
    length (cells (forward ev fn hits st)) = (length (cells st) + n)%nat ∧
    hover_cells_below (length (cells st) + n) (forward ev fn hits st) ∧
    Forall
      (λ c, (d_stopped (c_data c) < length (cells st) + n)%nat ∧
            (c_name c ≠ "pointerOut" →
             (∃ i, hits !! i = Some (d_hit (c_data c)) ∧
                   d_stopped (c_data c) = (length (cells st) + i)%nat) ∧
             d_event (c_data c) = ev ∧
             (c_stop c = true →
              S (d_stopped (c_data c)) = (length (cells st) + n)%nat)))
      new ∧
    StronglySorted le (dispatch_cells new).
Proof.
  intros Hfn. revert st. induction hits as [|hit rest IH]; intros st Hhov.
  { exists [], 0%nat. cbn [forward]. rewrite app_nil_r, Nat.add_0_r.
    split_and!; [done..|constructor|constructor]. }
  cbn [forward].
  set (base := length (cells st)) in *.
  set (st1 := set_cells (cells st ++ [false]) st).
  set (d := {| d_event := ev; d_type := type ev; d_hit := hit;
               d_stopped := base |}).
  assert (Hlen1 : length (cells st1) = S base).
  { unfold st1. cbn [cells set_cells]. rewrite length_app. simpl. lia. }
  destruct (Hfn d st1) as (seg & Htr & Hlen & Hhov2 & Hseg).
  { rewrite Hlen1. cbn [d d_stopped]. lia. }
  { rewrite Hlen1. by apply (hover_cells_below_le base); [lia|]. }
  rewrite Hlen1 in Hlen, Hhov2, Hseg.
  change (trace st1) with (trace st) in Htr.
  assert (Hsegcells : Forall (λ x, x = base) (dispatch_cells seg)).
  { apply Forall_forall. intros r (c & Hc & Hname & <-)%elem_of_dispatch_cells.
    rewrite Forall_forall in Hseg. destruct (Hseg c Hc) as (_ & Hd).
    by destruct (Hd Hname) as (_ & _ & -> & _). }
  destruct (cell (fn d st1) base) eqn:Hcell.
  - exists seg, 1%nat. replace (base + 1)%nat with (S base) by lia.
    split_and!; [done..| |by apply (sorted_constant base)].
    eapply Forall_impl; [exact Hseg|]. intros c [Hlt Hd]. split; [done|].
    intros Hname. destruct (Hd Hname) as (He & Hh & Hs & _).
    split_and!; [|done|].
    + exists 0%nat. cbn [lookup list_lookup]. rewrite Hh, Hs. split; [done|].
      cbn [d d_stopped]. lia.
    + intros _. rewrite Hs. done.
  - destruct (IH (fn d st1)) as (new & n & Htr' & Hlen' & Hhov' & Hnew & Hsorted).
    { by rewrite Hlen. }
    rewrite Hlen in Hlen', Hhov', Hnew.
    exists (seg ++ new), (S n).
    replace (base + S n)%nat with (S base + n)%nat by lia.
    split_and!.
    + by rewrite Htr', Htr, app_assoc.
    + done.
    + done.
    + apply Forall_app. split.
      * eapply Forall_impl; [exact Hseg|]. intros c [Hlt Hd]. split; [lia|].
        intros Hname. destruct (Hd Hname) as (He & Hh & Hs & Hstop).
        split_and!; [|done|].
        -- exists 0%nat. cbn [lookup list_lookup]. rewrite Hh, Hs.
           split; [done|]. cbn [d d_stopped]. lia.
        -- intros Hc. pose proof (Hstop Hc) as Hset.
           change (cell (fn d st1) base = true) in Hset. congruence.
      * eapply Forall_impl; [exact Hnew|]. intros c [Hlt Hd]. split; [done|].
        intros Hname. destruct (Hd Hname) as ((i & Hi & Hs) & He & Hstop).
        split_and!; [|done|done].
        exists (S i). split; [done|]. lia.
    + rewrite dispatch_cells_app. apply StronglySorted_app.
      split_and!; [|by apply (sorted_constant base)|done].
      intros x1 x2 Hx1 Hx2. rewrite Forall_forall in Hsegcells.
      rewrite (Hsegcells x1 Hx1).
      apply elem_of_dispatch_cells in Hx2 as (c & Hc & Hname & <-).
      rewrite Forall_forall in Hnew.
      destruct (Hnew c Hc) as (_ & Hd). destruct (Hd Hname) as ((i & _ & ->) & _).
      lia.
Qed.






Lemma handlePointer_forward name ev st :
  ready st = true →
  handlePointer name ev st
  = forward ev (pointer_fn name) (dispatched_hits ev st)
      (pick_hits ev (prepareRay ev st)).1.
Proof.
  intros Hr. unfold Events.handlePointer, Events.handleIntersects,
    Events.dispatched_hits. rewrite Hr. cbn [negb].
  by destruct (pick_hits ev (prepareRay ev st)).
Qed.

Lemma handlePointerMove_forward ev st :
  ready st = true →
  handlePointerMove ev st
  = handlePointerCancel ev (Some (dispatched_hits ev st))
      (forward ev move_fn (dispatched_hits ev st)
         (pick_hits ev (prepareRay ev st)).1).
Proof.
  intros Hr. unfold Events.handlePointerMove, Events.handleIntersects,
    Events.dispatched_hits. rewrite Hr. cbn [negb].
  by destruct (pick_hits ev (prepareRay ev st)).
Qed.

Lemma pick_hits_below ev st :
  hover_cells_below (length (cells st)) st →
  hover_cells_below (length (cells (pick_hits ev (prepareRay ev st)).1))
    (pick_hits ev (prepareRay ev st)).1.
Proof.
  intros Hhov.
  destruct (pick_hits_same ev (prepareRay ev st)) as (_ & Hh & Hc & _).
  unfold hover_cells_below. by rewrite Hh, Hc.
Qed.



(** *** The hover map stays well formed *)

Lemma hov_get_None k (m : list (string * Data)) :
  hov_get k m = None → (k ∉ m.*1) ∧ ∀ d, hov_set k d m = m ++ [(k, d)].
Proof.
  induction m as [|[k' d'] m IH]; cbn [hov_get hov_set].
  - intros _. split; [apply not_elem_of_nil|done].
  - destruct (String.eqb k' k) eqn:Hk; [done|]. intros Hnone.
    destruct (IH Hnone) as [Hnot Hset]. apply String.eqb_neq in Hk. split.
    + cbn [fmap list_fmap fst]. apply not_elem_of_cons. split; [congruence|done].
    + intros d. by rewrite Hset.
Qed.

Lemma hover_ok_same st st' :
  hovered st' = hovered st → hover_ok st → hover_ok st'.
Proof. unfold Events.hover_ok. by intros ->. Qed.

Lemma hover_ok_delete k st :
  hover_ok st → hover_ok (set_hovered (hov_delete k (hovered st)) st).
Proof.
  unfold Events.hover_ok, hov_delete. cbn [hovered set_hovered].
  intros [Hk Hnd]. split.
  - apply Forall_forall. intros e [_ He]%list_elem_of_filter.
    rewrite Forall_forall in Hk. by apply Hk.
  - eapply sublist_NoDup; [exact Hnd|].
    apply fmap_sublist, sublist_filter.
Qed.

Lemma hover_ok_book d st :
  hover_ok st → hov_get (hover_key d) (hovered st) = None →
  hover_ok (set_hovered (hov_set (hover_key d) d (hovered st)) st).
Proof.
  unfold Events.hover_ok. cbn [hovered set_hovered].
  intros [Hk Hnd] Hnone. destruct (hov_get_None _ _ Hnone) as [Hnot Hset].
  rewrite Hset. split.
  - apply Forall_app. split; [done|]. by apply Forall_singleton.
  - rewrite fmap_app. apply NoDup_app. split_and!; [done| |apply NoDup_singleton].
    intros k Hin Hk'. cbn [fmap list_fmap fst] in Hk'.
    apply list_elem_of_singleton in Hk'. by subst k.
Qed.

Lemma hover_ok_unhover d st : hover_ok st → hover_ok (unhover d st).
Proof.
  intros Hok. unfold Events.unhover.
  destruct (Events.handler_of _ _ _); [|by apply hover_ok_delete].
  apply hover_ok_delete. eapply hover_ok_same; [|exact Hok].
  apply hovered_invoke.
Qed.

Lemma hover_ok_move_fn d st : hover_ok st → hover_ok (move_fn d st).
Proof.
  intros Hok. unfold Events.move_fn. cbv zeta.
  set (s1 := match Events.handler_of scene (object (d_hit d)) "pointerMove" with
             | Some h => invoke "pointerMove" h d st
             | None => st
             end).
  assert (Hh1 : hovered s1 = hovered st).
  { subst s1. destruct (Events.handler_of _ _ "pointerMove"); [|done].
    apply hovered_invoke. }
  assert (Hok1 : hover_ok s1) by (by apply (hover_ok_same st)).
  destruct (Events.handler_of _ _ "pointerOver") as [over|]; [|done].
  fold (hover_key d).
  destruct (hov_get (hover_key d) (hovered s1)) as [prev|] eqn:Hget.
  - destruct (cell s1 (d_stopped prev)); [|done].
    apply (foldl_preserves hover_ok); [|by apply (hover_ok_same s1)].
    intros s x Hs. destruct (negb _); [by apply hover_ok_unhover|done].
  - eapply hover_ok_same; [apply hovered_invoke|].
    by apply hover_ok_book.
Qed.

Lemma hover_ok_pointer_fn name d st :
  hover_ok st → hover_ok (pointer_fn name d st).
Proof.
  intros Hok. unfold Events.pointer_fn.
  destruct (Events.handler_of _ _ _); [|done].
  eapply hover_ok_same; [apply hovered_invoke|done].
Qed.

Lemma hover_ok_forward ev fn hits st :
  (∀ d s, hover_ok s → hover_ok (fn d s)) →
  hover_ok st → hover_ok (forward ev fn hits st).
Proof.
  intros Hfn. apply forward_preserves; [|done].
  intros c s. by apply hover_ok_same.
Qed.

Lemma hover_ok_pick_hits ev st :
  hover_ok st → hover_ok (pick_hits ev (prepareRay ev st)).1.
Proof.
  apply hover_ok_same.
  by destruct (pick_hits_same ev (prepareRay ev st)) as (_ & -> & _).
Qed.

Lemma hover_ok_cancel ev hits st :
  hover_ok st → hover_ok (handlePointerCancel ev (Some hits) st).
Proof.
  intros Hok. unfold Events.handlePointerCancel.
  apply (foldl_preserves hover_ok); [|done].
  intros s d Hs. destruct (_ || _); [by apply hover_ok_unhover|done].
Qed.

Lemma step_ok_null : step_ok (λ _ s, s).
Proof.
  apply extends_step_ok. intros d s Hd. exists []. apply extends_refl.
Qed.

Lemma cells_below_forward ev fn hits st :
  step_ok fn →
  hover_cells_below (length (cells st)) st →
  hover_cells_below (length (cells (forward ev fn hits st)))
    (forward ev fn hits st).
Proof.
  intros Hfn Hhov.
  destruct (forward_dispatch ev fn hits st Hfn Hhov) as (_ & n & _ & -> & H & _).
  exact H.
Qed.

Lemma cells_below_cancel ev hits st :
  hover_cells_below (length (cells st)) st →
  hover_cells_below (length (cells (handlePointerCancel ev (Some hits) st)))
    (handlePointerCancel ev (Some hits) st).
Proof.
  intros Hhov.
  set (c := λ data : Data,
         Nat.eqb (length hits) 0
         || negb (existsb (λ i, Nat.eqb (object i) (object (d_hit data))) hits)).
  change (handlePointerCancel ev (Some hits) st)
    with (foldl (λ s d, if c d then unhover d s else s) st (snd <$> hovered st)).
  destruct (extends_unhover_hovered (length (cells st))
              {| d_event := ev; d_type := type ev;
                 d_hit := {| object := 0; distance := 0 |}; d_stopped := 0 |}
              c st eq_refl Hhov) as (_ & -> & _ & H & _).
  exact H.
Qed.

(** Every binding keeps the hover map well formed: entries sit under the
    uuid of their object, keys are not repeated, and the cell of an entry
    exists. The state without hover entries is well formed, so every state
    the layer reaches is. *)
Lemma layer_invariant (b : Binding) (ev : Event) (st : State) :
  hover_ok st → hover_cells_below (length (cells st)) st →
  hover_ok (deliver b ev st) ∧
  hover_cells_below (length (cells (deliver b ev st))) (deliver b ev st).
Proof.
  intros Hok Hhov.
  assert (Hptr : ∀ name,
            hover_ok (handlePointer name ev st) ∧
            hover_cells_below (length (cells (handlePointer name ev st)))
              (handlePointer name ev st)).
  { intros name. destruct (ready st) eqn:Hr.
    - rewrite handlePointer_forward by done. split.
      + apply hover_ok_forward; [apply hover_ok_pointer_fn|].
        by apply hover_ok_pick_hits.
      + apply cells_below_forward; [apply step_ok_pointer_fn|].
        by apply pick_hits_below.
    - unfold Events.handlePointer. by rewrite Hr. }
  destruct b; try apply Hptr.
  - split; [by apply hover_ok_cancel|by apply cells_below_cancel].
  - unfold Events.deliver. destruct (ready st) eqn:Hr.
    + rewrite handlePointerMove_forward by done. split.
      * apply hover_ok_cancel, hover_ok_forward; [apply hover_ok_move_fn|].
        by apply hover_ok_pick_hits.
      * apply cells_below_cancel, cells_below_forward; [apply step_ok_move_fn|].
        by apply pick_hits_below.
    + unfold Events.handlePointerMove. by rewrite Hr.
  - done.
  - unfold Events.deliver.
    change (handlePointerCancel ev None (set_captured None st))
      with (handlePointerCancel ev
              (Some (handleIntersects ev (λ _ s, s) (set_captured None st)).2)
              (handleIntersects ev (λ _ s, s) (set_captured None st)).1).
    rewrite handleIntersects_recast by (by left). cbn [fst snd]. split.
    + apply hover_ok_cancel, hover_ok_forward; done.
    + apply cells_below_cancel, cells_below_forward; [apply step_ok_null|done].
Qed.

End EventsFacts.

(** The layer on the sample scene. The pointer first is over B only, then
    over A and B: B is hovered, then A, whose [pointerOver] stops
    propagation. On the next move over A and B the stored cell of A is
    set, so B is unhovered although it is still hit. *)
Example stopped_front_unhovers_back :
  let move := Events.handlePointerMove Events.sample_scene
                Events.sample_raycaster in
  let s1 := move Events.move_behind Events.sample_state in
  let s2 := move Events.move_over s1 in
  let s3 := move Events.move_over s2 in
  (Events.hovered s1).*1 = ["B"] ∧
  (Events.hovered s2).*1 = ["B"; "A"] ∧
  (Events.hovered s3).*1 = ["A"] ∧
  Events.c_name <$> Events.trace s3 = ["pointerOver"; "pointerOver"; "pointerOut"] ∧
  (λ c, Events.object (Events.d_hit (Events.c_data c))) <$> Events.trace s3
  = [2%nat; 1%nat; 2%nat].
Proof. vm_compute. done. Qed.

Lemma hover_enter_and_leave_witness :
  Events.hovered Events.hovering_A
  = [("A", {| Events.d_event := Events.move_over;
              Events.d_type := "pointermove";
              Events.d_hit := Events.hit_A; Events.d_stopped := 0 |})]
  ∧ Events.hovered
      (Events.handlePointerMove Events.sample_scene Events.sample_raycaster
         Events.move_away Events.hovering_A)
    = [].
Proof.
  destruct (hover_enter_and_leave Events.sample_scene Events.sample_raycaster
              Events.move_over Events.move_away Events.sample_state
              Events.hit_A Events.hit_B Events.handlers_A Events.handlers_B
              (λ _, true) (λ _, false))
    as (_ & Hin & _ & _ & Hout); try reflexivity.
  - simpl. lia.
  - split; [exact Hin|exact Hout].
Defined.

Lemma no_dispatch_before_ready_witness :
  Events.deliver Events.sample_scene Events.sample_raycaster
    Events.onPointerMove Events.move_over
    (Events.set_captured (Some [Events.hit_A])
       {| Events.ready := false; Events.captured := None;
          Events.hovered := []; Events.cells := []; Events.ray := None;
          Events.raycasts := 0; Events.trace := [] |})
  = Events.set_captured (Some [Events.hit_A])
      {| Events.ready := false; Events.captured := None;
         Events.hovered := []; Events.cells := []; Events.ray := None;
         Events.raycasts := 0; Events.trace := [] |}.
Proof.
  refine (proj1 (no_dispatch_before_ready Events.sample_scene
                   Events.sample_raycaster Events.onPointerMove
                   Events.move_over _ _) _); reflexivity.
Defined.


Lemma capture_reuses_hits_witness :
  Events.handleIntersects Events.sample_scene Events.sample_raycaster
    Events.move_over (Events.pointer_fn Events.sample_scene "pointerDown")
    (Events.set_captured (Some [Events.hit_B]) Events.sample_state)
  = (Events.forward Events.move_over
       (Events.pointer_fn Events.sample_scene "pointerDown") [Events.hit_B]
       (Events.prepareRay Events.move_over
          (Events.set_captured (Some [Events.hit_B]) Events.sample_state)),
     [Events.hit_B])
  ∧ Events.raycasts
      (Events.deliver Events.sample_scene Events.sample_raycaster
         Events.onPointerMove Events.move_over
         (Events.set_captured (Some [Events.hit_B]) Events.sample_state))
    = 0%nat.
Proof.
  destruct (proj1 (capture_reuses_hits Events.sample_scene
                     Events.sample_raycaster Events.move_over
                     (Events.set_captured (Some [Events.hit_B])
                        Events.sample_state)
                     [Events.hit_B] eq_refl))
    as (Hreuse & _ & Hcast).
  - simpl. discriminate.
  - simpl. discriminate.
  - split.
    + exact (Hreuse (Events.pointer_fn Events.sample_scene "pointerDown")).
    + exact (Hcast Events.onPointerMove eq_refl).
Defined.


(** C9 as stated fails: a gotpointercapture event that arrives before the
    root is ready casts a ray. *)
Lemma raycast_before_ready :
  ¬ (∀ (scene : nat → Events.Object3D)
       (intersectObjects : option Events.Event → list Events.Hit)
       (b : Events.Binding) (ev : Events.Event) (st : Events.State),
       Events.ready st = false → Events.hovered st = [] →
       Events.raycasts (Events.deliver scene intersectObjects b ev st)
       = Events.raycasts st
       ∧ Events.trace (Events.deliver scene intersectObjects b ev st)
         = Events.trace st).
Proof.
  intros H.
  destruct (H (λ _, {| Events.uuid := "a"; Events.__handlers := None |})
              (λ _, []) Events.onGotPointerCapture
              {| Events.type := "gotpointercapture";
                 Events.clientX := 1; Events.clientY := 2 |}
              {| Events.ready := false; Events.captured := None;
                 Events.hovered := []; Events.cells := [];
                 Events.ray := None; Events.raycasts := 0;
                 Events.trace := [] |} eq_refl eq_refl) as [Hrc _].
  simpl in Hrc. discriminate Hrc.
Qed.

(* ===================================================================== *)
(** * Further properties *)
(* ===================================================================== *)

(** ** Frame subscribers: unsubscribing and [advanceFrames] *)

Section SchedulerMore.
Import Scheduler.

Lemma unsubscribe_all (fs subs : list Callback) :
  foldr unsubscribe subs fs = filter (λ s, s ∉ fs) subs.
Proof.
  induction fs as [|f fs IH]; cbn [foldr].
  - symmetry. apply filter_all, Forall_forall. intros x _. apply not_elem_of_nil.
  - rewrite IH. unfold unsubscribe. rewrite list_filter_filter.
    apply list_filter_iff. intros x. rewrite not_elem_of_cons. tauto.
Qed.

(** X1. Calling a series of unsubscribe functions leaves the subscribers
    that none of them names, in their old order; so neither the order of
    the calls nor calling one of them again makes a difference. *)
Theorem unsubscribe_order_irrelevant (fs fs' subs : list Callback) :
  (∀ f, f ∈ fs ↔ f ∈ fs') →
  foldr unsubscribe subs fs = foldr unsubscribe subs fs' ∧
  foldr unsubscribe subs fs = filter (λ s, s ∉ fs) subs.
Proof.
  intros Hsame. split; [|apply unsubscribe_all].
  rewrite !unsubscribe_all. apply list_filter_iff. intros x.
  by rewrite Hsame.
Qed.

Lemma fmap_const_seq {A} (a : A) (j n : nat) :
  (λ _, a) <$> seq j n = replicate n a.
Proof.
  revert j. induction n as [|n IH]; intros j; [done|].
  cbn [seq fmap list_fmap replicate]. f_equal. apply IH.
Qed.

(** X2. [advanceFrames] works subscriber by subscriber: the first
    subscriber is called for every frame before the second one is called
    at all. The frame numbers therefore run from 0 to [frames - 1] once
    for each subscriber, and there are [frames] calls for each. *)
Theorem advanceFrames_subscriber_by_subscriber {E : Type} (ref : E → Callback)
    (frames : nat) (delta : Delta) (subs : list E) :
  call_cb <$> advanceFrames ref frames delta subs
  = flat_map (λ s, replicate frames (ref s)) subs ∧
  call_frame <$> advanceFrames ref frames delta subs
  = flat_map (λ _, seq 0 frames) subs ∧
  length (advanceFrames ref frames delta subs) = (length subs * frames)%nat.
Proof.
  unfold advanceFrames. induction subs as [|s subs (IH1 & IH2 & IH3)];
    [done|].
  cbn [flat_map]. rewrite !fmap_app, IH1, IH2, length_app, IH3.
  rewrite <- !list_fmap_compose, length_fmap, length_seq.
  split_and!.
  - f_equal. apply (fmap_const_seq (ref s)).
  - f_equal. apply list_fmap_id.
  - simpl. lia.
Qed.

(** X3. What a callback gets as delta. A number is passed to every call
    as it is. With an array, the call for frame [i] gets entry [i] if the
    array has one and it is not zero; a zero entry and any frame past the
    end of the array give [undefined]. *)
Theorem advanceFrames_delta {E : Type} (ref : E → Callback)
    (frames : nat) (subs : list E) (c : Call) :
  (∀ d, c ∈ advanceFrames ref frames (DNum d) subs → call_delta c = Some d) ∧
  (∀ ds, c ∈ advanceFrames ref frames (DArr ds) subs →
     (call_frame c < frames)%nat ∧
     (∀ d, call_delta c = Some d ↔ ds !! call_frame c = Some d ∧ d ≠ 0%Z) ∧
     ((length ds ≤ call_frame c)%nat → call_delta c = None)).
Proof.
  split.
  - intros d Hc. unfold advanceFrames in Hc.
    apply list_elem_of_In, in_flat_map in Hc as (s & _ & Hc).
    apply list_elem_of_In, list_elem_of_fmap in Hc as (i & -> & _). done.
  - intros ds Hc. unfold advanceFrames in Hc.
    apply list_elem_of_In, in_flat_map in Hc as (s & _ & Hc).
    apply list_elem_of_In, list_elem_of_fmap in Hc as (i & -> & Hi).
    apply elem_of_seq in Hi. cbn [call_frame call_delta delta_at].
    split_and!.
    + lia.
    + intros d. destruct (ds !! i) as [d0|] eqn:Hd.
      * case_bool_decide as Hz.
        -- split; [done|]. intros [[= ->] Hne]. done.
        -- split; [intros [= ->]; done|]. by intros [[= ->] _].
      * split; [done|]. by intros [? _].
    + intros Hlen. by rewrite lookup_ge_None_2.
Qed.

Lemma unsubscribe_order_irrelevant_witness :
  foldr unsubscribe [1; 2; 3; 2; 4]%nat [2; 4; 2]%nat
  = foldr unsubscribe [1; 2; 3; 2; 4]%nat [4; 2]%nat.
Proof.
  apply (unsubscribe_order_irrelevant [2; 4; 2]%nat [4; 2]%nat).
  intros f. rewrite !elem_of_cons, !elem_of_nil. tauto.
Defined.

End SchedulerMore.

(** ** unmount: what it leaves alone, and when it throws *)

Section UnmountMore.
Import Js TestRenderer.

Lemma dispose_heap (v : Value) (w w1 : World) :
  dispose v w = Ok w1 →
  mockRoots w1 = mockRoots w ∧
  ∀ x, heap w1 !! x = heap w !! x ∨ heap w1 !! x = Some ∅.
Proof.
  destruct v as [| |b|z|s|f|r]; cbn [dispose]; try (intros [= <-]; by auto);
    try done.
  destruct (disposable (obj w r)).
  - unfold call_dispose. destruct (get (obj w r) "dispose"); try done.
    cbn [bind]. intros [= <-]. split; [done|]. intros x. cbn [heap set_heap log_dispose].
    destruct (decide (r = x)) as [->|Hne].
    + right. by rewrite lookup_insert_eq.
    + left. by rewrite lookup_insert_ne.
  - cbn [bind]. intros [= <-]. split; [done|]. intros x. cbn [heap set_heap].
    destruct (decide (r = x)) as [->|Hne].
    + right. by rewrite lookup_insert_eq.
    + left. by rewrite lookup_insert_ne.
Qed.

Lemma dispose_keeps_nullish (v : Value) (w w1 : World) (s : nat) (k : string) :
  dispose v w = Ok w1 →
  get (obj w s) k ∈ [VUndefined; VNull] →
  get (obj w1 s) k ∈ [VUndefined; VNull].
Proof.
  intros Hd Hn. apply dispose_heap in Hd as [_ Hd].
  unfold obj in *. destruct (Hd s) as [-> | ->]; [done|].
  change (default ∅ (Some ∅)) with (∅ : gmap string Value).
  unfold get. rewrite lookup_empty. by left.
Qed.

Lemma dispose_nullish (v : Value) (w : World) :
  v ∈ [VUndefined; VNull] → ∃ msg, dispose v w = Throw msg.
Proof.
  rewrite !elem_of_cons, elem_of_nil. intros [->|[->|[]]]; by eexists.
Qed.

(** X4. A root whose state object lacks one of [gl], [raycaster] and
    [camera] (the property is [undefined] or [null]) cannot be unmounted:
    [unmount] throws, whatever the other objects are, and so never reaches
    [mockRoots.delete]. *)
Theorem unmount_needs_all_parts (w : World) (id : nat) (root : Root)
    (k : string) :
  mockRoots w !! id = Some root →
  k ∈ ["gl"; "raycaster"; "camera"]%string →
  get (obj w (store root)) k ∈ [VUndefined; VNull] →
  ∃ msg, unmount id w = Throw msg.
Proof.
  intros Hroot Hk Hn. unfold unmount. rewrite Hroot.
  rewrite !elem_of_cons, elem_of_nil in Hk.
  destruct (dispose (get (obj w (store root)) "gl") w) as [w1|m1] eqn:E1;
    cbn [bind]; [|by eexists].
  destruct Hk as [->|Hk].
  { destruct (dispose_nullish _ w Hn) as [msg Hm]. congruence. }
  destruct (dispose (get (obj w1 (store root)) "raycaster") w1) as [w2|m2] eqn:E2;
    cbn [bind]; [|by eexists].
  pose proof (dispose_keeps_nullish _ _ _ (store root) k E1 Hn) as Hn1.
  destruct Hk as [->|Hk].
  { destruct (dispose_nullish _ w1 Hn1) as [msg Hm]. congruence. }
  destruct Hk as [->|[]].
  pose proof (dispose_keeps_nullish _ _ _ (store root) "camera" E2 Hn1) as Hn2.
  destruct (dispose_nullish _ w2 Hn2) as [msg ->]. cbn [bind]. by eexists.
Qed.


End UnmountMore.

Lemma unmount_needs_all_parts_witness :
  ∃ msg,
    TestRenderer.unmount 0
      {| TestRenderer.heap :=
           {[ 1%nat := ∅; 4%nat := {[ "gl" := Js.VRef 1 ]} ]};
         TestRenderer.mockRoots :=
           {[ 0%nat := {| TestRenderer.fiber := 9; TestRenderer.store := 4 |} ]};
         TestRenderer.disposed := [] |}
    = Js.Throw msg.
Proof.
  apply (unmount_needs_all_parts _ 0
           {| TestRenderer.fiber := 9; TestRenderer.store := 4 |} "camera").
  - reflexivity.
  - apply (bool_decide_unpack _). vm_compute. exact I.
  - vm_compute. by left.
Defined.


(** ** buildGraph: which object and which material a name stands for *)

Section GraphFacts.
Import Graph.

Lemma visit_snoc (data : ObjectMap) (objs : list Object3D) (o : Object3D) :
  foldl visit data (objs ++ [o]) = visit (foldl visit data objs) o.
Proof. by rewrite foldl_app. Qed.

Lemma visit_node_lookup (o : Object3D) (ns : gmap string Object3D) (n : string) :
  n ≠ ""%string → n ≠ "__proto__"%string →
  visit_node o ns !! n = if decide (name o = n) then Some o else ns !! n.
Proof.
  intros Hn Hp. unfold visit_node.
  destruct (String.eqb_spec (name o) "") as [He|He].
  { rewrite decide_False by congruence. done. }
  destruct (String.eqb_spec (name o) "__proto__") as [Hq|Hq].
  { rewrite decide_False by congruence. done. }
  destruct (decide (name o = n)) as [<-|Hne].
  - by rewrite lookup_insert_eq.
  - by rewrite lookup_insert_ne.
Qed.

Lemma visit_node_skip (o : Object3D) (ns : gmap string Object3D) (n : string) :
  n = ""%string ∨ n = "__proto__"%string →
  visit_node o ns !! n = ns !! n.
Proof.
  intros Hn. unfold visit_node.
  destruct (String.eqb_spec (name o) "") as [He|He]; [done|].
  destruct (String.eqb_spec (name o) "__proto__") as [Hq|Hq]; [done|].
  apply lookup_insert_ne. destruct Hn; congruence.
Qed.

Lemma nodes_foldl (data : ObjectMap) (objs : list Object3D) (n : string) :
  nodes (foldl visit data objs) !! n
  = if decide (n = ""%string ∨ n = "__proto__"%string) then nodes data !! n
    else match last (filter (λ o, name o = n) objs) with
         | Some o => Some o
         | None => nodes data !! n
         end.
Proof.
  induction objs as [|o objs IH] using rev_ind.
  - by destruct (decide _).
  - rewrite visit_snoc. cbn [visit nodes]. destruct (decide _) as [Hn|Hn].
    + by rewrite visit_node_skip.
    + rewrite visit_node_lookup by tauto. rewrite filter_app.
      destruct (decide (name o = n)) as [Heq|Hne].
      * rewrite (filter_cons_True (λ o, name o = n)) by done.
        rewrite filter_nil. by rewrite last_snoc.
      * rewrite (filter_cons_False (λ o, name o = n)) by done.
        rewrite filter_nil, app_nil_r. exact IH.
Qed.

(** X6. The nodes of a graph: a name stands for the last object of the
    traversal that carries it. Objects with an empty name are left out,
    and so is the name [__proto__], whose assignment creates no
    property. A falsy object gives an empty graph. *)
Theorem buildGraph_nodes_last_wins (root : Object3D) (n : string) :
  nodes (buildGraph (Some root)) !! n
  = (if decide (n = ""%string ∨ n = "__proto__"%string) then None
     else last (filter (λ o, name o = n) (traverse root))) ∧
  nodes (buildGraph None) = ∅ ∧ materials (buildGraph None) = ∅.
Proof.
  split; [|done]. unfold buildGraph. rewrite nodes_foldl. cbn [nodes].
  destruct (decide _); [apply lookup_empty|].
  destruct (last _); [done|apply lookup_empty].
Qed.

Lemma materials_foldl (data : ObjectMap) (objs : list Object3D) (k : string) :
  materials (foldl visit data objs) !! k
  = match materials data !! k with
    | Some m => Some m
    | None =>
        if inherited k then None
        else head (filter (λ m, mat_name m = k) (materials_of objs))
    end.
Proof.
  revert data. induction objs as [|o objs IH]; intros data.
  - cbn [foldl materials_of omap list_omap]. rewrite filter_nil.
    destruct (materials data !! k), (inherited k); done.
  - cbn [foldl]. rewrite IH. cbn [visit materials]. unfold visit_material.
    unfold materials_of. cbn [omap list_omap].
    destruct (material o) as [m|]; [|done].
    fold (materials_of objs).
    destruct (decide (mat_name m = k)) as [Heq|Hne].
    + rewrite (filter_cons_True (λ m, mat_name m = k)) by done.
      cbn [head]. subst k.
      unfold material_free.
      destruct (materials data !! mat_name m) as [m0|] eqn:Hm.
      * rewrite bool_decide_true by (by eexists). cbn [negb andb].
        by rewrite Hm.
      * rewrite bool_decide_false by (by intros [? ?]). cbn [negb andb].
        destruct (inherited (mat_name m)); cbn [negb].
        -- by rewrite Hm.
        -- by rewrite lookup_insert_eq.
    + rewrite (filter_cons_False (λ m, mat_name m = k)) by done.
      destruct (material_free (mat_name m) (materials data));
        [by rewrite lookup_insert_ne|done].
Qed.

(** X7. The materials of a graph: a name stands for the first material
    of the traversal that carries it, later materials of that name being
    dropped. A material whose name is a property that every object
    inherits, such as [constructor] or [toString], is never recorded. *)
Theorem buildGraph_materials_first_wins (root : Object3D) (k : string) :
  materials (buildGraph (Some root)) !! k
  = if inherited k then None
    else head (filter (λ m, mat_name m = k) (materials_of (traverse root))).
Proof.
  unfold buildGraph. rewrite materials_foldl. cbn [materials].
  by rewrite lookup_empty.
Qed.

End GraphFacts.

Lemma buildGraph_nodes_last_wins_witness :
  Graph.nodes (Graph.buildGraph (Some Graph.sample_root)) !! "leaf"%string
  = Some Graph.leaf2.
Proof.
  rewrite (proj1 (buildGraph_nodes_last_wins Graph.sample_root "leaf")).
  reflexivity.
Defined.

Lemma buildGraph_materials_first_wins_witness :
  Graph.materials (Graph.buildGraph (Some Graph.sample_root)) !! "bark"%string
  = Some Graph.bark1.
Proof.
  rewrite (buildGraph_materials_first_wins Graph.sample_root "bark").
  reflexivity.
Defined.

(** ** setManual: what is left of the scene *)

Section SetManualFacts.
Import Canvas.

Variable remove : nat → list nat → list nat.

(** [scene.remove(child)] takes the first occurrence of [child] out of
    [scene.children]. *)
Hypothesis remove_first :
  ∀ x l1 l2, x ∉ l1 → remove x (l1 ++ x :: l2) = l1 ++ l2.

Lemma forEach_from_past {A} (f : A → list A → list A) (n k : nat)
    (arr : list A) :
  (length arr ≤ k)%nat → forEach_from f n k arr = arr.
Proof.
  revert k. induction n as [|n IH]; intros k Hk; [done|].
  cbn [forEach_from]. rewrite lookup_ge_None_2 by done. apply IH. lia.
Qed.

Lemma forEach_from_remove (n : nat) (pre rest : list nat) :
  NoDup (pre ++ rest) → (length rest ≤ n)%nat →
  forEach_from remove n (length pre) (pre ++ rest)
  = pre ++ odd_positions rest.
Proof.
  revert pre rest. induction n as [|n IH]; intros pre rest Hnd Hlen.
  - destruct rest; [done|simpl in Hlen; lia].
  - destruct rest as [|x rest].
    { apply forEach_from_past. rewrite app_nil_r. lia. }
    cbn [forEach_from]. rewrite list_lookup_middle by done.
    assert (Hx : x ∉ pre).
    { apply NoDup_app in Hnd as (_ & Hd & _). intros Hin.
      apply (Hd x Hin). by left. }
    rewrite remove_first by done.
    assert (Hnd' : NoDup (pre ++ rest)).
    { apply NoDup_app in Hnd as (Hp & Hd & Hr).
      apply NoDup_cons in Hr as [_ Hr]. apply NoDup_app.
      split_and!; [done| |done]. intros z Hz Hz'. apply (Hd z Hz). by right. }
    destruct rest as [|y rest].
    { apply forEach_from_past. rewrite app_nil_r. lia. }
    cbn [odd_positions].
    replace (pre ++ y :: rest) with ((pre ++ [y]) ++ rest)
      by by rewrite <- app_assoc.
    replace (S (length pre)) with (length (pre ++ [y]))
      by (rewrite length_app; simpl; lia).
    rewrite IH.
    + by rewrite <- app_assoc.
    + by rewrite <- app_assoc.
    + simpl in Hlen. lia.
Qed.

(** X8. [setManual(true)] does not empty the scene. Its loop removes
    children from the array it is walking, so every removal moves the
    next child into the place just visited: of distinct children, those
    at positions 0, 2, 4, ... are removed and those at positions 1, 3,
    5, ... stay, which is half of them, rounded down. [setManual(false)]
    only clears the flag. *)
Theorem setManual_removes_every_other (st : State) :
  NoDup (children st) →
  children (setManual remove true st) = odd_positions (children st) ∧
  length (children (setManual remove true st))
  = (length (children st) / 2)%nat ∧
  manual (setManual remove true st) = true ∧
  setManual remove false st = {| manual := false; children := children st |}.
Proof.
  intros Hnd.
  assert (Hrun : children (setManual remove true st)
                 = odd_positions (children st)).
  { cbn [setManual children]. unfold forEach.
    apply (forEach_from_remove (length (children st)) [] (children st));
      [done|lia]. }
  split_and!; [done| |done|done].
  rewrite Hrun. clear. generalize (children st). intros l.
  assert (H : ∀ m (l : list nat), (length l ≤ m)%nat →
                length (odd_positions l) = (length l / 2)%nat).
  { clear. induction m as [|m IH]; intros l Hl.
    - by destruct l; [|simpl in Hl; lia].
    - destruct l as [|a [|b l]]; [done|done|].
      cbn [odd_positions length]. rewrite IH by (simpl in Hl; lia).
      change (S (S (length l))) with (2 + length l)%nat.
      replace (2 + length l)%nat with (length l + 1 * 2)%nat by lia.
      rewrite Nat.div_add by lia. lia. }
  by apply (H (length l)).
Qed.

End SetManualFacts.

Lemma splice_out_first (x : nat) (l1 l2 : list nat) :
  x ∉ l1 → Canvas.splice_out x (l1 ++ x :: l2) = l1 ++ l2.
Proof.
  induction l1 as [|y l1 IH]; intros Hx; cbn [app Canvas.splice_out].
  - by rewrite decide_True.
  - apply not_elem_of_cons in Hx as [Hne Hx].
    rewrite decide_False by done. by rewrite IH.
Qed.

Lemma setManual_removes_every_other_witness :
  Canvas.children
    (Canvas.setManual Canvas.splice_out true
       {| Canvas.manual := false; Canvas.children := [10; 11; 12; 13; 14]%nat |})
  = [11; 13]%nat.
Proof.
  apply (setManual_removes_every_other Canvas.splice_out splice_out_first
           {| Canvas.manual := false;
              Canvas.children := [10; 11; 12; 13; 14]%nat |}).
  apply (bool_decide_unpack _). vm_compute. exact I.
Defined.

(** ** The pointer-event layer over a session *)

Section EventsMore.
Import Events Session.

Variable scene : nat → Object3D.
Variable intersectObjects : option Event → list Hit.

Local Abbreviation intersect := (Events.intersect scene intersectObjects).
Local Abbreviation pick_hits := (Events.pick_hits scene intersectObjects).
Local Abbreviation handleIntersects := (Events.handleIntersects scene intersectObjects).
Local Abbreviation handler_of := (Events.handler_of scene).
Local Abbreviation pointer_fn := (Events.pointer_fn scene).
Local Abbreviation handlePointer := (Events.handlePointer scene intersectObjects).
Local Abbreviation unhover := (Events.unhover scene).
Local Abbreviation move_fn := (Events.move_fn scene).
Local Abbreviation handlePointerCancel := (Events.handlePointerCancel scene intersectObjects).
Local Abbreviation handlePointerMove := (Events.handlePointerMove scene intersectObjects).
Local Abbreviation deliver := (Events.deliver scene intersectObjects).
Local Abbreviation hover_key := (Events.hover_key scene).
Local Abbreviation pointerOut_calls := (Events.pointerOut_calls scene).
Local Abbreviation hover_ok := (Events.hover_ok scene).
Local Abbreviation dispatched_hits := (Events.dispatched_hits scene intersectObjects).
Local Abbreviation replay := (Session.replay scene intersectObjects).

Lemma grows_refl st : grows st st.
Proof. repeat split. exists []. by rewrite app_nil_r. Qed.

Lemma grows_trans s1 s2 s3 : grows s1 s2 → grows s2 s3 → grows s1 s3.
Proof.
  intros (a1 & a2 & a3 & a4 & n1 & a5) (b1 & b2 & b3 & b4 & n2 & b5).
  repeat split; try congruence. exists (n1 ++ n2).
  by rewrite b5, a5, app_assoc.
Qed.

Lemma grows_same st st' :
  ready st' = ready st → captured st' = captured st →
  raycasts st' = raycasts st → ray st' = ray st → trace st' = trace st →
  grows st st'.
Proof.
  intros. repeat split; try done. exists []. by rewrite app_nil_r.
Qed.

Lemma grows_invoke name h d st : grows st (invoke name h d st).
Proof.
  repeat split; try (unfold invoke; by destruct (h d)).
  eexists. apply trace_invoke.
Qed.

Lemma grows_unhover d st : grows st (unhover d st).
Proof.
  unfold Events.unhover. cbv zeta.
  destruct (handler_of _ _) as [h|].
  - apply (grows_trans _ (invoke "pointerOut" h (with_type "pointerout" d) st));
      [apply grows_invoke|by apply grows_same].
  - by apply grows_same.
Qed.

Lemma grows_loop (c : Data → bool) (ds : list Data) st :
  grows st (foldl (λ s d, if c d then unhover d s else s) st ds).
Proof.
  apply (foldl_preserves (grows st)); [|apply grows_refl].
  intros s d Hs. destruct (c d); [|done].
  eapply grows_trans; [exact Hs|apply grows_unhover].
Qed.

Lemma grows_pointer_fn name d st : grows st (pointer_fn name d st).
Proof.
  unfold Events.pointer_fn. destruct (handler_of _ _);
    [apply grows_invoke|apply grows_refl].
Qed.

Lemma grows_move_fn d st : grows st (move_fn d st).
Proof.
  unfold Events.move_fn. cbv zeta.
  set (st1 := match handler_of (object (d_hit d)) "pointerMove" with
              | Some h => invoke "pointerMove" h d st
              | None => st
              end).
  assert (H1 : grows st st1).
  { subst st1. destruct (handler_of _ "pointerMove");
      [apply grows_invoke|apply grows_refl]. }
  destruct (handler_of _ "pointerOver") as [over|]; [|done].
  destruct (hov_get _ _) as [prev|].
  - destruct (cell st1 (d_stopped prev)); [|done].
    eapply grows_trans; [exact H1|].
    eapply grows_trans; [|apply grows_loop]. by apply grows_same.
  - eapply grows_trans; [exact H1|].
    eapply grows_trans; [|apply grows_invoke]. by apply grows_same.
Qed.

Lemma grows_forward ev fn hits st :
  (∀ d s, grows s (fn d s)) → grows st (forward ev fn hits st).
Proof.
  intros Hfn. apply (forward_preserves (grows st)); [| |apply grows_refl].
  - intros c s Hs. eapply grows_trans; [exact Hs|]. by apply grows_same.
  - intros d s Hs. eapply grows_trans; [exact Hs|apply Hfn].
Qed.

Lemma grows_cancel_hits ev hits st :
  grows st (handlePointerCancel ev (Some hits) st).
Proof. unfold Events.handlePointerCancel. apply grows_loop. Qed.

Lemma pick_hits_grows ev st :
  ready (pick_hits ev st).1 = ready st ∧
  captured (pick_hits ev st).1 = captured st ∧
  ray (pick_hits ev st).1 = ray st ∧
  trace (pick_hits ev st).1 = trace st ∧
  (raycasts (pick_hits ev st).1 = raycasts st
   ∨ raycasts (pick_hits ev st).1 = S (raycasts st)).
Proof.
  unfold Events.pick_hits, Events.intersect.
  destruct (captured st) as [c|] eqn:Hc;
    [destruct (_ && _)|]; cbn; rewrite ?Hc; split_and!; auto.
Qed.

Lemma deliver_frame (b : Binding) ev st :
  ready (deliver b ev st) = ready st ∧
  (raycasts st ≤ raycasts (deliver b ev st) ≤ S (raycasts st))%nat ∧
  (∃ new, trace (deliver b ev st) = trace st ++ new) ∧
  (dispatching b = true →
   captured (deliver b ev st) = captured st ∧
   ray (deliver b ev st) = if ready st then Some ev else ray st).
Proof.
  assert (Hptr : ∀ name,
    ready (handlePointer name ev st) = ready st ∧
    (raycasts st ≤ raycasts (handlePointer name ev st) ≤ S (raycasts st))%nat ∧
    (∃ new, trace (handlePointer name ev st) = trace st ++ new) ∧
    (captured (handlePointer name ev st) = captured st ∧
     ray (handlePointer name ev st) = if ready st then Some ev else ray st)).
  { intros name. destruct (ready st) eqn:Hr.
    - rewrite (handlePointer_forward scene intersectObjects) by done.
      destruct (grows_forward ev (pointer_fn name) (dispatched_hits ev st)
                  (pick_hits ev (prepareRay ev st)).1 (grows_pointer_fn name))
        as (a1 & a2 & a3 & a4 & new & a5).
      destruct (pick_hits_grows ev (prepareRay ev st))
        as (p1 & p2 & p3 & p4 & p5).
      rewrite a1, a2, a3, a4, a5, p1, p2, p3, p4. cbn [prepareRay set_ray ready
        captured ray trace]. cbn [prepareRay set_ray raycasts] in p5.
      split_and!; [done|lia|lia|(exists new; reflexivity)|done|done].
    - unfold Events.handlePointer. rewrite Hr. cbn [negb].
      split_and!; [done|lia|lia| |done|done]. exists []. by rewrite app_nil_r. }
  destruct b; cbn [Events.deliver dispatching].
  - destruct (Hptr "click") as (H1 & H2 & H3 & H4).
    exact (conj H1 (conj H2 (conj H3 (λ _, H4)))).
  - destruct (Hptr "wheel") as (H1 & H2 & H3 & H4).
    exact (conj H1 (conj H2 (conj H3 (λ _, H4)))).
  - destruct (Hptr "pointerDown") as (H1 & H2 & H3 & H4).
    exact (conj H1 (conj H2 (conj H3 (λ _, H4)))).
  - destruct (Hptr "pointerUp") as (H1 & H2 & H3 & H4).
    exact (conj H1 (conj H2 (conj H3 (λ _, H4)))).
  - destruct (grows_cancel_hits ev [] st) as (a1 & a2 & a3 & a4 & new & a5).
    rewrite a1, a3. split_and!; [done|lia|lia|(exists new; exact a5)|done].
  - destruct (ready st) eqn:Hr.
    + rewrite (handlePointerMove_forward scene intersectObjects) by done.
      destruct (grows_cancel_hits ev (dispatched_hits ev st)
                  (forward ev move_fn (dispatched_hits ev st)
                     (pick_hits ev (prepareRay ev st)).1))
        as (c1 & c2 & c3 & c4 & new' & c5).
      destruct (grows_forward ev move_fn (dispatched_hits ev st)
                  (pick_hits ev (prepareRay ev st)).1 grows_move_fn)
        as (a1 & a2 & a3 & a4 & new & a5).
      destruct (pick_hits_grows ev (prepareRay ev st))
        as (p1 & p2 & p3 & p4 & p5).
      rewrite c1, c2, c3, c4, c5, a1, a2, a3, a4, a5, p1, p2, p3, p4.
      cbn [prepareRay set_ray ready captured ray trace].
      cbn [prepareRay set_ray raycasts] in p5.
      split_and!; [done|lia|lia| |done].
      exists (new ++ new'). by rewrite app_assoc.
    + unfold Events.handlePointerMove. rewrite Hr. cbn [negb].
      split_and!; [done|lia|lia| |done]. exists []. by rewrite app_nil_r.
  - unfold Events.intersect. cbn.
    split_and!; [done|lia|lia| |done]. exists []. by rewrite app_nil_r.
  - unfold Events.handlePointerCancel, Events.handleIntersects.
    destruct (pick_hits ev (prepareRay ev (set_captured None st)))
      as [st1 hits] eqn:Hp.
    destruct (pick_hits_grows ev (prepareRay ev (set_captured None st)))
      as (p1 & p2 & p3 & p4 & p5). rewrite Hp in p1, p2, p3, p4, p5.
    cbn [fst prepareRay set_ray set_captured ready captured ray trace raycasts]
      in p1, p2, p3, p4, p5.
    set (st2 := forward ev (λ _ s, s) hits st1).
    destruct (grows_forward ev (λ _ s, s) hits st1 (λ _ s, grows_refl s))
      as (a1 & a2 & a3 & a4 & new & a5). fold st2 in a1, a2, a3, a4, a5.
    match goal with
    | |- context [foldl ?f st2 ?l] =>
        destruct (grows_loop
          (λ data, Nat.eqb (length hits) 0
             || negb (existsb (λ i, Nat.eqb (object i) (object (d_hit data))) hits))
          l st2) as (c1 & c2 & c3 & c4 & new' & c5)
    end.
    rewrite c1, c3, c5, a1, a3, a5, p1, p4.
    split_and!; [done|lia|lia| |done].
    exists (new ++ new'). by rewrite app_assoc.
Qed.

(** X9. Whatever events arrive at the [div], in whatever order, the hover
    map stays well formed: every entry is stored under the uuid of its
    object, no uuid is stored twice, and the [stopped] cell of every
    entry is an existing one. *)
Theorem session_hover_map_well_formed
    (events : list (Binding * Event)) (st : State) :
  hover_ok st → hover_cells_below (length (cells st)) st →
  hover_ok (replay events st) ∧
  hover_cells_below (length (cells (replay events st))) (replay events st).
Proof.
  unfold Session.replay. revert st.
  induction events as [|[b ev] events IH]; intros st Hok Hbelow; [done|].
  cbn [foldl fst snd].
  destruct (layer_invariant scene intersectObjects b ev st Hok Hbelow).
  by apply IH.
Qed.

(** X10. The layer itself never changes [ready], and no event makes it
    cast more than one ray: after a series of events [ready] is what it
    was, and the number of intersections grew by at most the number of
    events. *)
Theorem session_ready_and_raycasts
    (events : list (Binding * Event)) (st : State) :
  ready (replay events st) = ready st ∧
  (raycasts st ≤ raycasts (replay events st) ≤ raycasts st + length events)%nat.
Proof.
  unfold Session.replay. revert st.
  induction events as [|[b ev] events IH]; intros st;
    [split; [done|simpl; lia]|].
  cbn [foldl fst snd length].
  destruct (deliver_frame b ev st) as (Hr & Hc & _).
  destruct (IH (deliver b ev st)) as (IHr & IHc).
  rewrite IHr, Hr. split; [done|lia].
Qed.

(** X11. The hits that a pointer capture remembers are those under the
    pointer at the last event that was dispatched, not at the capture
    event: [gotpointercapture] intersects with the ray as the dispatched
    event before it set it. While captured, an event that is neither a
    click nor a wheel event is dispatched over exactly these hits. *)
Theorem capture_remembers_last_ray (b : Binding) (ev0 ev1 ev2 : Event)
    (st : State) :
  dispatching b = true → ready st = true →
  type ev2 ≠ "click"%string → type ev2 ≠ "wheel"%string →
  let under_ev0 :=
    filter (λ h, is_Some (__handlers (scene (object h))))
      (intersectObjects (Some ev0)) in
  let st1 := deliver onGotPointerCapture ev1 (deliver b ev0 st) in
  captured st1 = Some under_ev0 ∧
  dispatched_hits ev2 st1 = under_ev0.
Proof.
  intros Hb Hr Hc Hw under_ev0 st1.
  destruct (deliver_frame b ev0 st) as (_ & _ & _ & Hray).
  destruct (Hray Hb) as [_ Hray']. rewrite Hr in Hray'.
  assert (Hcap : captured st1 = Some under_ev0).
  { subst st1 under_ev0. cbn [Events.deliver]. unfold Events.intersect.
    cbn [captured set_captured ray set_raycasts]. by rewrite Hray'. }
  split; [done|].
  unfold Events.dispatched_hits.
  rewrite (pick_hits_captured scene intersectObjects ev2 _ under_ev0); done.
Qed.

Lemma cancel_only_hits ev hits st k d :
  hover_ok st →
  (k, d) ∈ hovered (handlePointerCancel ev (Some hits) st) →
  ∃ h, h ∈ hits ∧ object h = object (d_hit d).
Proof.
  intros Hok Hin.
  set (c := λ data : Data,
         Nat.eqb (length hits) 0
         || negb (existsb (λ i, Nat.eqb (object i) (object (d_hit data))) hits)).
  change (handlePointerCancel ev (Some hits) st)
    with (foldl (λ s d, if c d then unhover d s else s) st
            (snd <$> hovered st)) in Hin.
  destruct (unhover_loop scene c (snd <$> hovered st) st) as [_ Hhov].
  rewrite Hhov in Hin. apply list_elem_of_filter in Hin as [Hk Hin2].
  cbn [fst] in Hk.
  destruct (c d) eqn:Hcd.
  - destruct Hk. destruct Hok as [Hkeys _].
    rewrite Forall_forall in Hkeys. pose proof (Hkeys _ Hin2) as Hkd.
    cbn [fst snd] in Hkd. rewrite Hkd.
    apply list_elem_of_fmap_2, list_elem_of_filter. split; [done|].
    by apply (list_elem_of_fmap_2 snd) in Hin2.
  - subst c. cbn beta in Hcd. apply orb_false_iff in Hcd as [_ Hex].
    apply negb_false_iff, existsb_exists in Hex as (h & Hh & Heq).
    exists h. split; [by apply list_elem_of_In|]. by apply Nat.eqb_eq.
Qed.

(** X12. After a pointer-move only objects under the pointer are
    hovered: every hover entry that is left belongs to an object that is
    among the hits of the event. *)
Theorem move_leaves_only_hit_objects_hovered (ev : Event) (st : State)
    (k : string) (d : Data) :
  hover_ok st → ready st = true →
  (k, d) ∈ hovered (handlePointerMove ev st) →
  ∃ h, h ∈ dispatched_hits ev st ∧ object h = object (d_hit d).
Proof.
  intros Hok Hr Hin.
  rewrite (handlePointerMove_forward scene intersectObjects) in Hin by done.
  eapply cancel_only_hits; [|exact Hin].
  apply hover_ok_forward; [apply hover_ok_move_fn|].
  by apply hover_ok_pick_hits.
Qed.

Lemma forward_cons_continue ev (fn : Data → State → State) hit rest st :
  let d := {| d_event := ev; d_type := type ev; d_hit := hit;
              d_stopped := length (cells st) |} in
  let st2 := fn d (set_cells (cells st ++ [false]) st) in
  forward ev fn (hit :: rest) st
  = if cell st2 (length (cells st)) then st2 else forward ev fn rest st2.
Proof. reflexivity. Qed.

Lemma cell_fresh st :
  cell (set_cells (cells st ++ [false]) st) (length (cells st)) = false.
Proof.
  unfold cell. cbn [cells set_cells].
  by rewrite lookup_app_r, Nat.sub_diag by lia.
Qed.

Lemma forward_unstopped name ev hits st :
  (∀ h handler d, h ∈ hits →
     handler_of (object h) name = Some handler → handler d = false) →
  ∃ new,
    trace (forward ev (pointer_fn name) hits st) = trace st ++ new ∧
    (λ c, d_hit (c_data c)) <$> new
    = filter (λ h, is_Some (handler_of (object h) name)) hits ∧
    Forall (λ c, c_name c = name ∧ d_event (c_data c) = ev ∧ c_stop c = false)
      new.
Proof.
  revert st. induction hits as [|hit rest IH]; intros st Hns.
  - exists []. cbn [forward]. by rewrite app_nil_r.
  - rewrite forward_cons_continue. cbv zeta.
    set (d := {| d_event := ev; d_type := type ev; d_hit := hit;
                 d_stopped := length (cells st) |}).
    set (st1 := set_cells (cells st ++ [false]) st).
    assert (Hrest : ∀ h handler d, h ∈ rest →
              handler_of (object h) name = Some handler → handler d = false).
    { intros h handler d' Hh. apply Hns. by right. }
    destruct (handler_of (object hit) name) as [h|] eqn:Hh.
    + assert (Hstop : h d = false) by (apply (Hns hit); [by left|done]).
      assert (Hinv : pointer_fn name d st1
                     = set_trace (trace st1 ++ [{| c_name := name; c_data := d;
                                                  c_stop := false |}]) st1).
      { unfold Events.pointer_fn. change (object (d_hit d)) with (object hit).
        rewrite Hh. unfold invoke. by rewrite Hstop. }
      rewrite Hinv.
      assert (Hc : cell (set_trace
                           (trace st1 ++ [{| c_name := name; c_data := d;
                                             c_stop := false |}]) st1)
                     (length (cells st)) = false) by apply cell_fresh.
      rewrite Hc.
      destruct (IH (set_trace
                      (trace st1 ++ [{| c_name := name; c_data := d;
                                        c_stop := false |}]) st1) Hrest)
        as (new & Ht & Hhits & Hall).
      exists ({| c_name := name; c_data := d; c_stop := false |} :: new).
      split_and!.
      * rewrite Ht. cbn [trace set_trace set_cells st1]. by rewrite <- app_assoc.
      * rewrite (filter_cons_True (λ h, is_Some (handler_of (object h) name)))
          by (by rewrite Hh). cbn [fmap list_fmap]. by rewrite <- Hhits.
      * by constructor.
    + assert (Hfn : pointer_fn name d st1 = st1).
      { unfold Events.pointer_fn. change (object (d_hit d)) with (object hit).
        by rewrite Hh. }
      rewrite Hfn.
      assert (Hc : cell st1 (length (cells st)) = false) by apply cell_fresh.
      rewrite Hc.
      destruct (IH st1 Hrest) as (new & Ht & Hhits & Hall).
      exists new. split_and!; [done| |done].
      rewrite (filter_cons_False (λ h, is_Some (handler_of (object h) name)));
        [done|]. rewrite Hh. by intros [? ?].
Qed.

(** X13. An event that no handler stops reaches every hit: the handler
    of this name is called once for each hit whose object has one, in the
    order of the hits, with the event itself. Hits without a handler of
    this name are passed over. *)
Theorem unstopped_event_reaches_every_handler (name : string) (ev : Event)
    (st : State) :
  ready st = true →
  (∀ h handler d, h ∈ dispatched_hits ev st →
     handler_of (object h) name = Some handler → handler d = false) →
  ∃ new,
    trace (handlePointer name ev st) = trace st ++ new ∧
    (λ c, d_hit (c_data c)) <$> new
    = filter (λ h, is_Some (handler_of (object h) name))
        (dispatched_hits ev st) ∧
    Forall (λ c, c_name c = name ∧ d_event (c_data c) = ev ∧ c_stop c = false)
      new.
Proof.
  intros Hr Hns. rewrite (handlePointer_forward scene intersectObjects) by done.
  destruct (forward_unstopped name ev (dispatched_hits ev st)
              (pick_hits ev (prepareRay ev st)).1 Hns) as (new & Ht & Hrest).
  exists new. split; [|done]. rewrite Ht.
  by destruct (pick_hits_same scene intersectObjects ev (prepareRay ev st))
    as (-> & _).
Qed.

Lemma hov_get_set_None k k' d (m : list (string * Data)) :
  hov_get k (hov_set k' d m) = None → hov_get k m = None.
Proof.
  induction m as [|[k0 d0] m IH]; [done|]. cbn [hov_set hov_get].
  destruct (String.eqb_spec k0 k') as [->|Hne]; cbn [hov_get].
  - destruct (String.eqb k' k); [done|]. done.
  - destruct (String.eqb k0 k); [done|]. exact IH.
Qed.

Lemma cell_unhover_mono d st r :
  cell st r = true → cell (unhover d st) r = true.
Proof.
  intros Hc. unfold Events.unhover. cbv zeta.
  destruct (handler_of _ _) as [h|]; [|done].
  change (cell (invoke "pointerOut" h (with_type "pointerout" d) st) r = true).
  by apply cell_invoke_mono.
Qed.

Lemma move_fn_over_entering d s :
  (d_stopped d < length (cells s))%nat →
  ∃ seg,
    trace (move_fn d s) = trace s ++ seg ∧
    (∀ c, c ∈ seg → c_name c = "pointerOver"%string →
       hov_get (hover_key (c_data c)) (hovered s) = None) ∧
    (cell (move_fn d s) (d_stopped d) = true ∨
     ∀ k, hov_get k (hovered (move_fn d s)) = None →
          hov_get k (hovered s) = None).
Proof.
  intros Hd. unfold Events.move_fn. cbv zeta.
  set (st1 := match handler_of (object (d_hit d)) "pointerMove" with
              | Some h => invoke "pointerMove" h d s
              | None => s
              end).
  assert (H1 : ∃ seg0, trace st1 = trace s ++ seg0 ∧
                 Forall (λ c, c_name c = "pointerMove"%string) seg0 ∧
                 hovered st1 = hovered s ∧
                 length (cells st1) = length (cells s)).
  { subst st1. destruct (handler_of _ "pointerMove") as [h|].
    - eexists. split; [apply trace_invoke|]. split; [by repeat constructor|].
      split; [apply hovered_invoke|apply cells_invoke_length].
    - exists []. by rewrite app_nil_r. }
  destruct H1 as (seg0 & Ht1 & Hn1 & Hh1 & Hl1).
  assert (Hseg0 : ∀ c, c ∈ seg0 → c_name c = "pointerOver"%string →
                    hov_get (hover_key (c_data c)) (hovered s) = None).
  { intros c Hc Hname. rewrite Forall_forall in Hn1.
    rewrite (Hn1 c Hc) in Hname. discriminate Hname. }
  destruct (handler_of _ "pointerOver") as [over|].
  2:{ exists seg0. split_and!; [done|done|]. right. by rewrite Hh1. }
  destruct (hov_get _ (hovered st1)) as [prev|] eqn:Hget.
  - destruct (cell st1 (d_stopped prev)).
    2:{ exists seg0. split_and!; [done|done|]. right. by rewrite Hh1. }
    set (c := λ d' : Data,
           negb (String.eqb (uuid (scene (object (d_hit d'))))
                   (uuid (scene (object (d_hit d)))))).
    set (st2 := stopPropagation d st1).
    change (foldl _ st2 _)
      with (foldl (λ s0 d', if c d' then unhover d' s0 else s0) st2
              (snd <$> hovered st2)).
    destruct (unhover_loop scene c (snd <$> hovered st2) st2) as [Ht _].
    cbv zeta in Ht.
    exists (seg0 ++ pointerOut_calls
                      (filter (λ d', c d' = true) (snd <$> hovered st2))).
    split_and!.
    + rewrite Ht. change (trace st2) with (trace st1). by rewrite Ht1, app_assoc.
    + intros c0 Hc0 Hname. apply elem_of_app in Hc0 as [Hc0|Hc0];
        [by apply Hseg0|].
      apply elem_of_pointerOut_calls in Hc0 as (? & _ & Hn & _).
      rewrite Hn in Hname. discriminate Hname.
    + left.
      apply (foldl_preserves (λ s0, cell s0 (d_stopped d) = true)).
      * intros s0 d0 Hs0. destruct (c d0); [|done]. by apply cell_unhover_mono.
      * apply cell_stopPropagation. lia.
  - exists (seg0 ++ [{| c_name := "pointerOver";
                        c_data := with_type "pointerover" d;
                        c_stop := over (with_type "pointerover" d) |}]).
    split_and!.
    + rewrite trace_invoke. cbn [trace set_hovered]. by rewrite Ht1, app_assoc.
    + intros c0 Hc0 Hname. apply elem_of_app in Hc0 as [Hc0|Hc0];
        [by apply Hseg0|].
      apply list_elem_of_singleton in Hc0 as ->. cbn [c_data].
      rewrite <- Hh1. exact Hget.
    + right. intros k. rewrite hovered_invoke. cbn [hovered set_hovered].
      rewrite Hh1. apply hov_get_set_None.
Qed.

Lemma forward_over_entering ev hits st :
  ∃ new,
    trace (forward ev move_fn hits st) = trace st ++ new ∧
    ∀ c, c ∈ new → c_name c = "pointerOver"%string →
         hov_get (hover_key (c_data c)) (hovered st) = None.
Proof.
  revert st. induction hits as [|hit rest IH]; intros st.
  - exists []. cbn [forward]. rewrite app_nil_r. split; [done|].
    intros c Hc. by apply elem_of_nil in Hc.
  - rewrite forward_cons_continue. cbv zeta.
    set (d := {| d_event := ev; d_type := type ev; d_hit := hit;
                 d_stopped := length (cells st) |}).
    set (st1 := set_cells (cells st ++ [false]) st).
    destruct (move_fn_over_entering d st1) as (seg & Ht & Hseg & Hcase).
    { subst d st1. cbn [d_stopped cells set_cells]. rewrite length_app.
      simpl. lia. }
    destruct (cell (move_fn d st1) (length (cells st))) eqn:Hcell.
    + exists seg. split; [exact Ht|exact Hseg].
    + destruct Hcase as [Hset|Hmono].
      { change (d_stopped d) with (length (cells st)) in Hset. congruence. }
      destruct (IH (move_fn d st1)) as (new & Ht' & Hnew).
      exists (seg ++ new). split.
      * rewrite Ht', Ht. change (trace st1) with (trace st).
        by rewrite app_assoc.
      * intros c Hc Hname. apply elem_of_app in Hc as [Hc|Hc].
        -- by apply Hseg.
        -- apply (Hmono (hover_key (c_data c))). by apply Hnew.
Qed.

(** X14. [pointerOver] marks the entering of an object: a pointer-move
    calls it only for an object that was not hovered when the event
    arrived. An object that stays under the pointer gets [pointerMove]
    events, and no second [pointerOver]. *)
Theorem pointerOver_only_on_entering (ev : Event) (st : State) :
  ready st = true →
  ∃ new,
    trace (handlePointerMove ev st) = trace st ++ new ∧
    ∀ c, c ∈ new → c_name c = "pointerOver"%string →
         hov_get (hover_key (c_data c)) (hovered st) = None.
Proof.
  intros Hr. rewrite (handlePointerMove_forward scene intersectObjects) by done.
  set (hits := dispatched_hits ev st).
  set (st1 := (pick_hits ev (prepareRay ev st)).1).
  destruct (forward_over_entering ev hits st1) as (new & Ht & Hnew).
  destruct (pick_hits_same scene intersectObjects ev (prepareRay ev st))
    as (Hpt & Hph & _). fold st1 in Hpt, Hph.
  set (st2 := forward ev move_fn hits st1) in *.
  set (c := λ data : Data,
         Nat.eqb (length hits) 0
         || negb (existsb (λ i, Nat.eqb (object i) (object (d_hit data))) hits)).
  change (handlePointerCancel ev (Some hits) st2)
    with (foldl (λ s d, if c d then unhover d s else s) st2
            (snd <$> hovered st2)).
  destruct (unhover_loop scene c (snd <$> hovered st2) st2) as [Hc _].
  cbv zeta in Hc.
  exists (new ++ pointerOut_calls
                   (filter (λ d, c d = true) (snd <$> hovered st2))).
  split.
  - rewrite Hc, Ht, Hpt. cbn [trace prepareRay set_ray]. by rewrite app_assoc.
  - intros c0 Hc0 Hname. apply elem_of_app in Hc0 as [Hc0|Hc0].
    + rewrite <- (Hnew c0 Hc0 Hname). by rewrite Hph.
    + apply elem_of_pointerOut_calls in Hc0 as (? & _ & Hn & _).
      rewrite Hn in Hname. discriminate Hname.
Qed.

(** X15. After a pointer-leave nothing is hovered, and a second
    pointer-leave changes nothing: no handler is called again. *)
Theorem pointer_leave_twice (ev ev' : Event) (st : State) :
  hover_ok st →
  hovered (deliver onPointerLeave ev st) = [] ∧
  deliver onPointerLeave ev' (deliver onPointerLeave ev st)
  = deliver onPointerLeave ev st.
Proof.
  intros Hok. cbn [Events.deliver].
  destruct (cancel_empty scene intersectObjects ev st Hok) as [_ Hh].
  split; [exact Hh|].
  unfold Events.handlePointerCancel at 1. by rewrite Hh.
Qed.

(** X16. A lost pointer capture looks at the scene anew: it intersects
    at the position of the event, and every hover entry that is left
    afterwards belongs to an object among these hits. *)
Theorem lost_capture_leaves_only_hit_objects_hovered (ev : Event) (st : State)
    (k : string) (d : Data) :
  hover_ok st →
  (k, d) ∈ hovered (deliver onLostPointerCapture ev st) →
  ∃ h, h ∈ filter (λ h, is_Some (__handlers (scene (object h))))
             (intersectObjects (Some ev))
       ∧ object h = object (d_hit d).
Proof.
  intros Hok Hin. cbn [Events.deliver] in Hin.
  unfold Events.handlePointerCancel in Hin.
  rewrite (handleIntersects_recast scene intersectObjects) in Hin
    by (left; reflexivity).
  set (hits := filter (λ h, is_Some (__handlers (scene (object h))))
                 (intersectObjects (Some ev))) in *.
  set (st1 := forward ev (λ _ s, s) hits _) in Hin.
  apply (cancel_only_hits ev hits st1 k d); [|exact Hin].
  apply (hover_ok_same scene st); [|done].
  subst st1. by destruct (forward_null ev hits
    (set_raycasts (S (raycasts (set_captured None st)))
       (prepareRay ev (set_captured None st)))) as (_ & -> & _).
Qed.

Lemma hov_get_elem k (m : list (string * Data)) prev :
  hov_get k m = Some prev → (k, prev) ∈ m.
Proof.
  induction m as [|[k0 d0] m IH]; [done|]. cbn [hov_get].
  destruct (String.eqb_spec k0 k) as [->|Hne].
  - intros [= ->]. by left.
  - intros H. right. by apply IH.
Qed.

Lemma filter_key_single k (m : list (string * Data)) prev :
  NoDup m.*1 → hov_get k m = Some prev →
  filter (λ e, e.1 = k) m = [(k, prev)].
Proof.
  induction m as [|[k0 d0] m IH]; [done|]. cbn [hov_get fmap list_fmap fst].
  intros Hnd Hget. apply NoDup_cons in Hnd as [Hk0 Hnd].
  destruct (String.eqb_spec k0 k) as [->|Hne].
  - injection Hget as ->. rewrite filter_cons_True by done. f_equal.
    apply filter_none, Forall_forall. intros [k1 d1] Hin Heq. cbn [fst] in Heq.
    subst k1. apply Hk0. by apply (list_elem_of_fmap_2 fst) in Hin.
  - rewrite filter_cons_False by done. by apply IH.
Qed.

Lemma filter_iff_in {A} (P Q : A → Prop) `{∀ x, Decision (P x)}
    `{∀ x, Decision (Q x)} (l : list A) :
  (∀ x, x ∈ l → P x ↔ Q x) → filter P l = filter Q l.
Proof.
  induction l as [|a l IH]; intros Hpq; [done|].
  assert (Hl : filter P l = filter Q l).
  { apply IH. intros x Hx. apply Hpq. by right. }
  destruct (decide (P a)) as [Hp|Hp].
  - rewrite (filter_cons_True P) by done.
    rewrite (filter_cons_True Q) by (apply Hpq; [by left|done]).
    by rewrite Hl.
  - rewrite (filter_cons_False P) by done.
    rewrite (filter_cons_False Q); [done|].
    intros Hq. apply Hp, Hpq; [by left|done].
Qed.

(** The entries that the stop branch of [handlePointerMove] leaves: those
    of the uuid of the object that stopped. *)
Lemma others_unhovered k (m : list (string * Data)) prev :
  Forall (λ e, e.1 = hover_key e.2) m → NoDup m.*1 →
  hov_get k m = Some prev →
  filter
    (λ e, e.1 ∉ hover_key
                 <$> filter (λ d', negb (String.eqb (hover_key d') k) = true)
                       (snd <$> m)) m
  = [(k, prev)].
Proof.
  intros Hkeys Hnd Hget. rewrite <- (filter_key_single k m prev Hnd Hget).
  apply filter_iff_in. intros [k1 d1] Hin. cbn [fst].
  rewrite Forall_forall in Hkeys. pose proof (Hkeys _ Hin) as Hk1.
  cbn [fst snd] in Hk1. split.
  - intros Hnot. destruct (decide (k1 = k)) as [|Hne]; [done|].
    destruct Hnot. rewrite Hk1. apply list_elem_of_fmap_2, list_elem_of_filter.
    split; [|by apply (list_elem_of_fmap_2 snd) in Hin].
    apply negb_true_iff, String.eqb_neq. by rewrite <- Hk1.
  - intros -> Hin'. apply list_elem_of_fmap in Hin' as (d2 & Hk2 & Hd2).
    apply list_elem_of_filter in Hd2 as [Hc _].
    apply negb_true_iff, String.eqb_neq in Hc. by rewrite <- Hk2 in Hc.
Qed.

Lemma move_fn_stopped d s over prev :
  handler_of (object (d_hit d)) "pointerOver" = Some over →
  hov_get (hover_key d) (hovered s) = Some prev →
  cell s (d_stopped prev) = true →
  (d_stopped d < length (cells s))%nat →
  ∃ seg0,
    Forall (λ c0, c_name c0 = "pointerMove"%string ∧ c_data c0 = d) seg0 ∧
    trace (move_fn d s)
    = trace s ++ seg0
      ++ pointerOut_calls
           (filter (λ d', negb (String.eqb (hover_key d') (hover_key d)) = true)
              (snd <$> hovered s)) ∧
    hovered (move_fn d s)
    = filter
        (λ e, e.1 ∉ hover_key
                     <$> filter
                           (λ d', negb (String.eqb (hover_key d') (hover_key d))
                                  = true)
                           (snd <$> hovered s))
        (hovered s) ∧
    cell (move_fn d s) (d_stopped d) = true.
Proof.
  intros Hover Hget Hcell Hd. unfold Events.move_fn. cbv zeta.
  set (st1 := match handler_of (object (d_hit d)) "pointerMove" with
              | Some h => invoke "pointerMove" h d s
              | None => s
              end).
  assert (H1 : ∃ seg0, trace st1 = trace s ++ seg0 ∧
                 Forall (λ c0, c_name c0 = "pointerMove"%string ∧ c_data c0 = d)
                   seg0 ∧
                 hovered st1 = hovered s ∧
                 length (cells st1) = length (cells s) ∧
                 cell st1 (d_stopped prev) = true).
  { subst st1. destruct (handler_of _ "pointerMove") as [h|].
    - eexists. split; [apply trace_invoke|]. split; [by repeat constructor|].
      split; [apply hovered_invoke|].
      split; [apply cells_invoke_length|by apply cell_invoke_mono].
    - exists []. by rewrite app_nil_r. }
  destruct H1 as (seg0 & Ht1 & Hn1 & Hh1 & Hl1 & Hc1).
  rewrite Hover, Hh1.
  change (uuid (scene (object (d_hit d)))) with (hover_key d).
  rewrite Hget, Hc1.
  set (c := λ d' : Data, negb (String.eqb (hover_key d') (hover_key d))).
  set (st2 := stopPropagation d st1).
  change (foldl _ st2 _)
    with (foldl (λ s0 d', if c d' then unhover d' s0 else s0) st2
            (snd <$> hovered st2)).
  destruct (unhover_loop scene c (snd <$> hovered st2) st2) as [Ht Hh].
  cbv zeta in Ht, Hh.
  change (hovered st2) with (hovered st1) in *. rewrite Hh1 in *.
  exists seg0. split_and!.
  - done.
  - rewrite Ht. change (trace st2) with (trace st1).
    by rewrite Ht1, app_assoc.
  - exact Hh.
  - apply (foldl_preserves (λ s0, cell s0 (d_stopped d) = true)).
    + intros s0 d0 Hs0. destruct (c d0); [|done]. by apply cell_unhover_mono.
    + apply cell_stopPropagation. lia.
Qed.

Lemma cell_new_cell_mono st r :
  cell st r = true → cell (set_cells (cells st ++ [false]) st) r = true.
Proof.
  unfold cell. cbn [cells set_cells].
  destruct (cells st !! r) as [b|] eqn:Hl; [|done].
  by rewrite (lookup_app_l_Some _ _ _ _ Hl).
Qed.

Lemma cell_forward_mono ev (fn : Data → State → State) hits st r :
  (∀ d s, cell s r = true → cell (fn d s) r = true) →
  cell st r = true → cell (forward ev fn hits st) r = true.
Proof.
  intros Hfn. revert st. induction hits as [|hit rest IH]; intros st Hc;
    [done|].
  rewrite forward_cons_continue. cbv zeta.
  assert (H2 : cell (fn {| d_event := ev; d_type := type ev; d_hit := hit;
                           d_stopped := length (cells st) |}
                       (set_cells (cells st ++ [false]) st)) r = true)
    by by apply Hfn, cell_new_cell_mono.
  destruct (cell _ (length (cells st))); [done|]. by apply IH.
Qed.

Lemma cell_loop_mono (c : Data → bool) (ds : list Data) st r :
  cell st r = true →
  cell (foldl (λ s d, if c d then unhover d s else s) st ds) r = true.
Proof.
  intros Hc. apply (foldl_preserves (λ s, cell s r = true)); [|done].
  intros s d Hs. destruct (c d); [|done]. by apply cell_unhover_mono.
Qed.

Lemma cell_pointer_fn_mono name d st r :
  cell st r = true → cell (pointer_fn name d st) r = true.
Proof.
  intros Hc. unfold Events.pointer_fn.
  destruct (handler_of _ _); [by apply cell_invoke_mono|done].
Qed.

Lemma cell_move_fn_mono d st r :
  cell st r = true → cell (move_fn d st) r = true.
Proof.
  intros Hc. unfold Events.move_fn. cbv zeta.
  set (st1 := match handler_of (object (d_hit d)) "pointerMove" with
              | Some h => invoke "pointerMove" h d st
              | None => st
              end).
  assert (H1 : cell st1 r = true).
  { subst st1. destruct (handler_of _ "pointerMove");
      [by apply cell_invoke_mono|done]. }
  destruct (handler_of _ "pointerOver") as [over|]; [|done].
  destruct (hov_get _ _) as [prev|].
  - destruct (cell st1 (d_stopped prev)); [|done].
    apply (foldl_preserves (λ s, cell s r = true)).
    + intros s d0 Hs. destruct (negb _); [|done]. by apply cell_unhover_mono.
    + by apply cell_stopPropagation_mono.
  - by apply cell_invoke_mono.
Qed.

Lemma cell_pick_hits ev st r :
  cell (pick_hits ev (prepareRay ev st)).1 r = cell st r.
Proof.
  unfold cell.
  by destruct (pick_hits_same scene intersectObjects ev (prepareRay ev st))
    as (_ & _ & -> & _).
Qed.

Lemma cell_deliver_mono (b : Binding) ev st r :
  cell st r = true → cell (deliver b ev st) r = true.
Proof.
  intros Hc.
  assert (Hptr : ∀ name, cell (handlePointer name ev st) r = true).
  { intros name. destruct (ready st) eqn:Hr.
    - rewrite (handlePointer_forward scene intersectObjects) by done.
      apply cell_forward_mono; [intros; by apply cell_pointer_fn_mono|].
      by rewrite cell_pick_hits.
    - unfold Events.handlePointer. by rewrite Hr. }
  destruct b; cbn [Events.deliver]; try apply Hptr.
  - unfold Events.handlePointerCancel. by apply cell_loop_mono.
  - destruct (ready st) eqn:Hr.
    + rewrite (handlePointerMove_forward scene intersectObjects) by done.
      unfold Events.handlePointerCancel. apply cell_loop_mono.
      apply cell_forward_mono; [intros; by apply cell_move_fn_mono|].
      by rewrite cell_pick_hits.
    + unfold Events.handlePointerMove. by rewrite Hr.
  - exact Hc.
  - unfold Events.handlePointerCancel, Events.handleIntersects.
    destruct (pick_hits ev (prepareRay ev (set_captured None st)))
      as [st1 hits] eqn:Hp.
    apply cell_loop_mono. apply cell_forward_mono; [done|].
    pose proof (cell_pick_hits ev (set_captured None st) r) as Hpk.
    rewrite Hp in Hpk. cbn [fst] in Hpk. by rewrite Hpk.
Qed.

Lemma stopped_hover_step (ev : Event) (st : State)
    (h : Hit) (rest : list Hit) (over : Handler) (prev : Data) :
  ready st = true → hover_ok st →
  dispatched_hits ev st = h :: rest →
  handler_of (object h) "pointerOver" = Some over →
  hov_get (uuid (scene (object h))) (hovered st) = Some prev →
  cell st (d_stopped prev) = true →
  object (d_hit prev) = object h →
  hovered (handlePointerMove ev st) = [(uuid (scene (object h)), prev)] ∧
  ∃ new,
    trace (handlePointerMove ev st) = trace st ++ new ∧
    Forall (λ c, (c_name c = "pointerMove"%string ∧ d_hit (c_data c) = h)
                 ∨ (c_name c = "pointerOut"%string
                    ∧ uuid (scene (object (d_hit (c_data c))))
                      ≠ uuid (scene (object h))))
      new.
Proof.
  intros Hr [Hkeys Hnd] Hhits Hover Hget Hcell Hobj.
  rewrite (handlePointerMove_forward scene intersectObjects) by done.
  rewrite Hhits.
  destruct (pick_hits_same scene intersectObjects ev (prepareRay ev st))
    as (Hpt & Hph & Hpc & _).
  set (st0 := (pick_hits ev (prepareRay ev st)).1) in *.
  cbn [prepareRay set_ray trace hovered cells] in Hpt, Hph, Hpc.
  rewrite forward_cons_continue. cbv zeta.
  set (d := {| d_event := ev; d_type := type ev; d_hit := h;
               d_stopped := length (cells st0) |}).
  set (st1 := set_cells (cells st0 ++ [false]) st0).
  destruct (move_fn_stopped d st1 over prev) as (seg0 & Hseg0 & Ht & Hh & Hc).
  - exact Hover.
  - change (hovered st1) with (hovered st0). by rewrite Hph.
  - unfold cell in *. cbn [cells st1 set_cells]. rewrite Hpc.
    destruct (cells st !! d_stopped prev) as [b|] eqn:Hl; [|done].
    by rewrite (lookup_app_l_Some _ _ _ _ Hl).
  - cbn [d d_stopped st1 cells set_cells]. rewrite length_app. simpl. lia.
  - change (d_stopped d) with (length (cells st0)) in Hc. rewrite Hc.
    change (hovered st1) with (hovered st0) in Hh, Ht. rewrite Hph in Hh, Ht.
    change (hover_key d) with (uuid (scene (object h))) in Hh, Ht.
    rewrite (others_unhovered _ _ prev Hkeys Hnd Hget) in Hh.
    set (st2 := move_fn d st1) in *.
    assert (Hfin : handlePointerCancel ev (Some (h :: rest)) st2 = st2).
    { unfold Events.handlePointerCancel. rewrite Hh.
      cbn [fmap list_fmap snd foldl length Nat.eqb orb existsb].
      rewrite Hobj, Nat.eqb_refl. done. }
    rewrite Hfin. split; [exact Hh|].
    eexists. split.
    + rewrite Ht. change (trace st1) with (trace st0). by rewrite Hpt.
    + apply Forall_app. split.
      * eapply Forall_impl; [exact Hseg0|]. intros c0 [Hn ->]. left. done.
      * apply Forall_forall. intros c0 Hc0. right.
        apply elem_of_pointerOut_calls in Hc0 as (d' & Hd' & Hn & Hdata).
        split; [done|]. rewrite Hdata. cbn [with_type d_hit].
        apply list_elem_of_filter in Hd' as [Hne _].
        by apply negb_true_iff, String.eqb_neq in Hne.
Qed.

(** X17. An object that is hovered and has stopped propagation shields
    what lies behind it. When it is the nearest hit of a pointer-move, no
    farther hit gets the event, every other hover entry is removed with
    its [pointerOut] call, and the object keeps its entry without a second
    [pointerOver]. *)
Theorem stopped_hover_blocks_farther_hits (ev : Event) (st : State)
    (h : Hit) (rest : list Hit) (over : Handler) (prev : Data) :
  ready st = true → hover_ok st →
  dispatched_hits ev st = h :: rest →
  handler_of (object h) "pointerOver" = Some over →
  hov_get (uuid (scene (object h))) (hovered st) = Some prev →
  cell st (d_stopped prev) = true →
  object (d_hit prev) = object h →
  hovered (handlePointerMove ev st) = [(uuid (scene (object h)), prev)] ∧
  cell (handlePointerMove ev st) (d_stopped prev) = true ∧
  ∃ new,
    trace (handlePointerMove ev st) = trace st ++ new ∧
    Forall (λ c, (c_name c = "pointerMove"%string ∧ d_hit (c_data c) = h)
                 ∨ (c_name c = "pointerOut"%string
                    ∧ uuid (scene (object (d_hit (c_data c))))
                      ≠ uuid (scene (object h))))
      new.
Proof.
  intros Hr Hok Hhits Hover Hget Hcell Hobj.
  destruct (stopped_hover_step ev st h rest over prev Hr Hok Hhits Hover Hget
              Hcell Hobj) as [Hhov Hcalls].
  split; [exact Hhov|]. split; [|exact Hcalls].
  exact (cell_deliver_mono onPointerMove ev st (d_stopped prev) Hcell).
Qed.

(** X18. A [stopped] flag is never cleared: whatever events arrive
    later, a cell that [stopPropagation] has set stays set. A hover entry
    that stopped propagation therefore keeps shielding what lies behind
    it for as long as it is stored. *)
Theorem stopped_flag_never_cleared (events : list (Binding * Event))
    (st : State) (r : nat) :
  cell st r = true → cell (replay events st) r = true.
Proof.
  unfold Session.replay. revert st.
  induction events as [|[b ev] events IH]; intros st Hc; [done|].
  cbn [foldl fst snd]. by apply IH, cell_deliver_mono.
Qed.

(** X19. Click, wheel, pointer-down, pointer-up and gotpointercapture
    events never change the hover map: only pointer-move, pointer-leave
    and lostpointercapture do. *)
Theorem hover_changes_only_on_move_leave_and_lost_capture
    (b : Binding) (ev : Event) (st : State) :
  b ∈ [onClick; onWheel; onPointerDown; onPointerUp; onGotPointerCapture] →
  hovered (deliver b ev st) = hovered st.
Proof.
  intros Hb.
  assert (Hptr : ∀ name, hovered (handlePointer name ev st) = hovered st).
  { intros name. destruct (ready st) eqn:Hr.
    - rewrite (handlePointer_forward scene intersectObjects) by done.
      apply (forward_preserves (λ s, hovered s = hovered st)).
      + done.
      + intros d s Hs. unfold Events.pointer_fn.
        destruct (handler_of _ _); [by rewrite hovered_invoke|done].
      + by destruct (pick_hits_same scene intersectObjects ev
                       (prepareRay ev st)) as (_ & -> & _).
    - unfold Events.handlePointer. by rewrite Hr. }
  rewrite !elem_of_cons, elem_of_nil in Hb.
  destruct Hb as [->|[->|[->|[->|[->|[]]]]]]; cbn [Events.deliver];
    try apply Hptr.
  done.
Qed.

End EventsMore.

Lemma hovering_A_ok : Events.hover_ok Events.sample_scene Events.hovering_A.
Proof.
  split.
  - apply Forall_singleton. reflexivity.
  - apply NoDup_singleton.
Qed.

Lemma session_hover_map_well_formed_witness :
  Events.hover_ok Events.sample_scene
    (Session.replay Events.sample_scene Events.sample_raycaster
       [(Events.onPointerMove, Events.move_over);
        (Events.onGotPointerCapture, Session.got_capture);
        (Events.onPointerMove, Events.move_behind);
        (Events.onLostPointerCapture, Events.move_away)]
       Events.sample_state).
Proof.
  refine (proj1 (session_hover_map_well_formed Events.sample_scene
                   Events.sample_raycaster _ Events.sample_state _ _)).
  - split; [apply Forall_nil_2|apply NoDup_nil_2].
  - apply Forall_nil_2.
Defined.

Lemma capture_remembers_last_ray_witness :
  Events.captured
    (Events.deliver Events.sample_scene Events.sample_raycaster
       Events.onGotPointerCapture Session.got_capture
       (Events.deliver Events.sample_scene Events.sample_raycaster
          Events.onPointerDown Session.pointer_down Events.sample_state))
  = Some [Events.hit_A; Events.hit_B]
  ∧ Events.dispatched_hits Events.sample_scene Events.sample_raycaster
      Events.move_away
      (Events.deliver Events.sample_scene Events.sample_raycaster
         Events.onGotPointerCapture Session.got_capture
         (Events.deliver Events.sample_scene Events.sample_raycaster
            Events.onPointerDown Session.pointer_down Events.sample_state))
    = [Events.hit_A; Events.hit_B].
Proof.
  apply (capture_remembers_last_ray Events.sample_scene
           Events.sample_raycaster Events.onPointerDown Session.pointer_down
           Session.got_capture Events.move_away Events.sample_state);
    [reflexivity|reflexivity|discriminate|discriminate].
Defined.

Lemma move_leaves_only_hit_objects_hovered_witness :
  ∃ h,
    h ∈ Events.dispatched_hits Events.sample_scene Events.sample_raycaster
          Events.move_over Events.hovering_A
    ∧ Events.object h = 1%nat.
Proof.
  apply (move_leaves_only_hit_objects_hovered Events.sample_scene
           Events.sample_raycaster Events.move_over Events.hovering_A "A"
           {| Events.d_event := Events.move_over;
              Events.d_type := "pointermove";
              Events.d_hit := Events.hit_A;
              Events.d_stopped := 0 |}).
  - exact hovering_A_ok.
  - reflexivity.
  - vm_compute. apply list_elem_of_here.
Defined.

Lemma unstopped_event_reaches_every_handler_witness :
  ∃ new,
    Events.trace
      (Events.handlePointer Session.click_scene Events.sample_raycaster
         "click" Session.click_over Events.sample_state)
    = Events.trace Events.sample_state ++ new
    ∧ (λ c, Events.d_hit (Events.c_data c)) <$> new
      = [Events.hit_A; Events.hit_B].
Proof.
  destruct (unstopped_event_reaches_every_handler Session.click_scene
              Events.sample_raycaster "click" Session.click_over
              Events.sample_state) as (new & Htrace & Hhits & _).
  - reflexivity.
  - intros h handler d Hh Hhandler.
    change (Events.dispatched_hits Session.click_scene Events.sample_raycaster
              Session.click_over Events.sample_state)
      with [Events.hit_A; Events.hit_B] in Hh.
    rewrite !elem_of_cons, elem_of_nil in Hh.
    destruct Hh as [->|[->|[]]]; vm_compute in Hhandler;
      injection Hhandler as <-; reflexivity.
  - exists new. split; [exact Htrace|]. rewrite Hhits. reflexivity.
Defined.

Lemma pointerOver_only_on_entering_witness :
  ∃ new,
    Events.trace
      (Events.handlePointerMove Events.sample_scene Events.sample_raycaster
         Events.move_over Events.hovering_A)
    = Events.trace Events.hovering_A ++ new
    ∧ ∀ c, c ∈ new → Events.c_name c = "pointerOver"%string →
        Events.hov_get (Events.hover_key Events.sample_scene (Events.c_data c))
          (Events.hovered Events.hovering_A)
        = None.
Proof.
  apply (pointerOver_only_on_entering Events.sample_scene
           Events.sample_raycaster Events.move_over Events.hovering_A).
  reflexivity.
Defined.

Lemma pointer_leave_twice_witness :
  Events.deliver Events.sample_scene Events.sample_raycaster
    Events.onPointerLeave Events.move_behind
    (Events.deliver Events.sample_scene Events.sample_raycaster
       Events.onPointerLeave Events.move_away Events.hovering_A)
  = Events.deliver Events.sample_scene Events.sample_raycaster
      Events.onPointerLeave Events.move_away Events.hovering_A.
Proof.
  apply (pointer_leave_twice Events.sample_scene Events.sample_raycaster
           Events.move_away Events.move_behind Events.hovering_A).
  exact hovering_A_ok.
Defined.

Lemma advanceFrames_delta_witness :
  Scheduler.call_delta
    {| Scheduler.call_cb := 7; Scheduler.call_frame := 2;
       Scheduler.call_delta := Scheduler.delta_at (Scheduler.DArr [5%Z; 3%Z]) 2 |}
  = None.
Proof.
  apply (proj2 (advanceFrames_delta id 3 [7%nat]
                  {| Scheduler.call_cb := 7; Scheduler.call_frame := 2;
                     Scheduler.call_delta :=
                       Scheduler.delta_at (Scheduler.DArr [5%Z; 3%Z]) 2 |})
           [5%Z; 3%Z]).
  - vm_compute. do 2 apply list_elem_of_further. apply list_elem_of_here.
  - simpl. lia.
Defined.

Lemma lost_capture_leaves_only_hit_objects_hovered_witness :
  ∃ h,
    h ∈ filter
          (λ h, is_Some (Events.__handlers
                           (Events.sample_scene (Events.object h))))
          (Events.sample_raycaster (Some Events.move_over))
    ∧ Events.object h = 1%nat.
Proof.
  apply (lost_capture_leaves_only_hit_objects_hovered Events.sample_scene
           Events.sample_raycaster Events.move_over Events.hovering_A "A"
           {| Events.d_event := Events.move_over;
              Events.d_type := "pointermove";
              Events.d_hit := Events.hit_A;
              Events.d_stopped := 0 |}).
  - exact hovering_A_ok.
  - vm_compute. apply list_elem_of_here.
Defined.

Lemma stopped_hover_blocks_farther_hits_witness :
  Events.hovered
    (Events.handlePointerMove Events.sample_scene Events.sample_raycaster
       Events.move_over Session.hovering_B_and_A)
  = [("A", {| Events.d_event := Events.move_over;
              Events.d_type := "pointermove";
              Events.d_hit := Events.hit_A;
              Events.d_stopped := 1 |})].
Proof.
  refine (proj1 (stopped_hover_blocks_farther_hits Events.sample_scene
                   Events.sample_raycaster Events.move_over
                   Session.hovering_B_and_A Events.hit_A [Events.hit_B]
                   (λ _, true)
                   {| Events.d_event := Events.move_over;
                      Events.d_type := "pointermove";
                      Events.d_hit := Events.hit_A;
                      Events.d_stopped := 1 |} _ _ _ _ _ _ _));
    try reflexivity.
  assert (Hs : Events.hovered Session.hovering_B_and_A
               = [("B", {| Events.d_event := Events.move_behind;
                           Events.d_type := "pointermove";
                           Events.d_hit := Events.hit_B;
                           Events.d_stopped := 0 |});
                  ("A", {| Events.d_event := Events.move_over;
                           Events.d_type := "pointermove";
                           Events.d_hit := Events.hit_A;
                           Events.d_stopped := 1 |})]) by reflexivity.
  unfold Events.hover_ok. rewrite Hs. split.
  - repeat constructor.
  - apply (bool_decide_unpack _). vm_compute. exact I.
Defined.

Lemma stopped_flag_never_cleared_witness :
  Events.cell
    (Session.replay Events.sample_scene Events.sample_raycaster
       [(Events.onPointerMove, Events.move_behind);
        (Events.onPointerLeave, Events.move_away);
        (Events.onClick, Session.click_over)]
       Events.hovering_A) 0
  = true.
Proof.
  apply (stopped_flag_never_cleared Events.sample_scene
           Events.sample_raycaster _ Events.hovering_A 0).
  reflexivity.
Defined.

Lemma hover_changes_only_on_move_leave_and_lost_capture_witness :
  Events.hovered
    (Events.deliver Events.sample_scene Events.sample_raycaster
       Events.onClick Session.click_over Events.hovering_A)
  = Events.hovered Events.hovering_A.
Proof.
  apply (hover_changes_only_on_move_leave_and_lost_capture
           Events.sample_scene Events.sample_raycaster Events.onClick
           Session.click_over Events.hovering_A).
  apply list_elem_of_here.
Defined.
